(** * FileSystemWatcher: inotify based directory watcher

    Shallow embedding of [src/fswatcher/filesystemwatcher.cpp].

    The private state of the watcher ([FileSystemWatcher::PrivateData]), the
    standard error stream, the emitted Qt signals and the operating system are
    threaded explicitly through a small state-and-exception monad.  The
    operating system (inotify, the file system, [read(2)]) is an interface:
    every theorem holds for every implementation of it. *)

From Stdlib Require Import ZArith List Lia Sorting.Sorted.
From Stdlib Require Import Strings.String Strings.Ascii Strings.Byte.
From stdpp Require Import base option list strings gmap.

Local Open Scope Z_scope.

(** ** Qt and libc data *)

(** [QString]; a [const char*] is converted byte for byte. *)
Definition QString := string.

(** [QDir]: a directory named by a path. *)
Record QDir := mkQDir { dirPath : QString }.

(** [QDir()] names the working directory of the process. *)
Definition QDir_default : QDir := mkQDir "."%string.

(** [QTimer]: only the interval and whether it is running matter here. *)
Record QTimer := mkQTimer { interval : Z; isActive : bool }.

Definition QTimer_start (t : QTimer) : QTimer := mkQTimer (interval t) true.
Definition QTimer_stop (t : QTimer) : QTimer := mkQTimer (interval t) false.
Definition QTimer_setInterval (msec : Z) (t : QTimer) : QTimer :=
  mkQTimer msec (isActive t).

(** Constants of [<sys/inotify.h>] and [<errno.h>] (Linux ABI). *)
Definition IN_CLOSE_WRITE : Z := 0x8.
Definition IN_MOVED_FROM : Z := 0x40.
Definition IN_MOVED_TO : Z := 0x80.
Definition IN_MOVE : Z := Z.lor IN_MOVED_FROM IN_MOVED_TO.
Definition IN_DELETE : Z := 0x200.
Definition IN_IGNORED : Z := 0x8000.
Definition IN_NONBLOCK : Z := 2048.
Definition EAGAIN : Z := 11.

(** [sizeof(struct inotify_event)]: four 32-bit fields before the name. *)
Definition sizeof_inotify_event : Z := 16.

(** ** Raw records: [struct inotify_event] seen through a [char*] *)

Module inotify.

(** The fields of [struct inotify_event]; [name] is the flexible array
    member, that is, the bytes that follow the header. *)
Record event := mkEvent {
  wd : Z;
  mask : Z;
  cookie : Z;
  len : Z;
  name : list byte
}.

End inotify.

Definition u8 (b : byte) : Z := Z.of_N (Byte.to_N b).

(** Little-endian [uint32_t] and [int] (two's complement). *)
Definition uint32_of_bytes (b0 b1 b2 b3 : byte) : Z :=
  u8 b0 + 256 * (u8 b1 + 256 * (u8 b2 + 256 * u8 b3)).

Definition int_of_bytes (b0 b1 b2 b3 : byte) : Z :=
  let u := uint32_of_bytes b0 b1 b2 b3 in
  if u <? 2 ^ 31 then u else u - 2 ^ 32.

(** [(struct inotify_event* ) p] for [p] pointing at [bytes]: defined when the
    whole header lies inside the bytes that were read. *)
Definition cast_inotify_event (bytes : list byte) : option inotify.event :=
  match bytes with
  | w0 :: w1 :: w2 :: w3 :: m0 :: m1 :: m2 :: m3
    :: c0 :: c1 :: c2 :: c3 :: l0 :: l1 :: l2 :: l3 :: rest =>
      Some (inotify.mkEvent (int_of_bytes w0 w1 w2 w3)
                            (uint32_of_bytes m0 m1 m2 m3)
                            (uint32_of_bytes c0 c1 c2 c3)
                            (uint32_of_bytes l0 l1 l2 l3)
                            rest)
  | _ => None
  end.

(** The bytes of a NUL-terminated string; [None] when no NUL is met before the
    end of the initialised bytes. *)
Fixpoint c_str (bytes : list byte) : option (list byte) :=
  match bytes with
  | [] => None
  | b :: rest =>
      if Byte.eqb b x00 then Some [] else cons b <$> c_str rest
  end.

(** [QString(const char* )]. *)
Definition QString_of_c_str (bytes : list byte) : option QString :=
  string_of_list_byte <$> c_str bytes.

(** ** Events and signals *)

Record INotifyEvent := mkINotifyEvent { mask : Z; path : QString }.

(** [enum EVENT_TYPES]. *)
Definition fileChangeEvents : Z := Z.lor IN_CLOSE_WRITE IN_MOVE.
Definition fileRemovalEvents : Z := Z.lor IN_DELETE IN_MOVED_FROM.

(** The signals of [FileSystemWatcher], declared in [filesystemwatcher.h]
    and emitted by [readEvents]. *)
Inductive Signal :=
| fileChanged (path : QString)
| fileRemoved (path : QString).

(** The exception of the watcher, declared in [filesystemwatcher.h]: it
    carries its message. *)
Record FileSystemWatcherError := mkError { what : QString }.

(** ** The operating system *)

(** System calls return their value and [errno], and may change the state of
    the system.  [sys_read fd count] also returns the bytes it stored in the
    buffer. *)
Class OS (K : Type) := {
  sys_read : Z → Z → K → (Z * Z * list byte) * K;
  inotify_init1 : Z → K → (Z * Z) * K;
  inotify_add_watch : Z → QString → Z → K → (Z * Z) * K;
  inotify_rm_watch : Z → Z → K → (Z * Z) * K;
  strerror : Z → QString;
  QDir_exists : QDir → K → bool;
  QDir_absolutePath : QDir → K → QString
}.

(** ** State and effects *)

Record PrivateData := mkPrivateData {
  watchedDirectories : list QDir;
  eventsLoopTimer : QTimer;
  fd : Z;
  watchFdMap : gmap Z QDir
}.

Inductive Outcome (A : Type) : Type :=
| Return (a : A)
| Throw (e : FileSystemWatcherError)
| Undefined
| OutOfFuel.

Arguments Return {A} a.
Arguments Throw {A} e.
Arguments Undefined {A}.
Arguments OutOfFuel {A}.

Section Watcher.

Context {K : Type} `{!OS K}.

(** Everything the code can read or change. *)
Record State := mkState {
  d : PrivateData;
  os : K;
  cerr : list QString;
  emitted : list Signal
}.

Definition M (A : Type) : Type := State → Outcome A * State.

Definition ret {A} (a : A) : M A := λ s, (Return a, s).

Definition bind {A B} (m : M A) (k : A → M B) : M B :=
  λ s, match m s with
       | (Return a, s') => k a s'
       | (Throw e, s') => (Throw e, s')
       | (Undefined, s') => (Undefined, s')
       | (OutOfFuel, s') => (OutOfFuel, s')
       end.

Definition throw {A} (msg : QString) : M A := λ s, (Throw (mkError msg), s).

Definition undefined_behaviour {A} : M A := λ s, (Undefined, s).

Definition out_of_fuel {A} : M A := λ s, (OutOfFuel, s).

(** Dereferencing: defined when the value is there.  Where the code reads
    past the bytes that [read] stored, the outcome is [Undefined]: what the
    compiled code does then depends on what the rest of the buffer holds,
    and nothing is said about it. *)
Definition deref {A} (o : option A) : M A :=
  match o with
  | Some a => ret a
  | None => undefined_behaviour
  end.

End Watcher.

Arguments State K : clear implicits.
Arguments M K A : clear implicits.

Notation "x <- m ;; k" := (bind m (λ x, k))
  (at level 100, m at next level, right associativity).
Notation "m ;;; k" := (bind m (λ _, k))
  (at level 100, right associativity).

(** [std::map<int, QDir>::begin()]: the entry with the least key. *)
Definition map_begin (m : gmap Z QDir) : option (Z * QDir) :=
  foldr (λ kv acc,
           match acc with
           | Some kv' => if kv.1 <? kv'.1 then Some kv else acc
           | None => Some kv
           end) None (map_to_list m).

Section Operations.

Context {K : Type} `{!OS K}.

Abbreviation M := (M K).

(** *** Primitive effects *)

Definition gets {A} (f : PrivateData → A) : M A := λ s, (Return (f (d s)), s).

Definition modify (f : PrivateData → PrivateData) : M unit :=
  λ s, (Return tt, mkState (f (d s)) (os s) (cerr s) (emitted s)).

(** A system call. *)
Definition syscall {A} (call : K → A * K) : M A :=
  λ s, let (a, k) := call (os s) in
       (Return a, mkState (d s) k (cerr s) (emitted s)).

(** A question to the file system that does not change it. *)
Definition ask {A} (query : K → A) : M A := λ s, (Return (query (os s)), s).

(** [std::cerr << line << std::endl]. *)
Definition cerr_endl (line : QString) : M unit :=
  λ s, (Return tt, mkState (d s) (os s) (cerr s ++ [line]) (emitted s)).

(** [emit signal]. *)
Definition emit (signal : Signal) : M unit :=
  λ s, (Return tt, mkState (d s) (os s) (cerr s) (emitted s ++ [signal])).

Definition set_watchFdMap (m : gmap Z QDir) (p : PrivateData) : PrivateData :=
  mkPrivateData (watchedDirectories p) (eventsLoopTimer p) (fd p) m.

Definition set_eventsLoopTimer (t : QTimer) (p : PrivateData) : PrivateData :=
  mkPrivateData (watchedDirectories p) t (fd p) (watchFdMap p).

(** [watchFdMap[key]] as an rvalue: [std::map::operator[]] inserts a
    default-constructed [QDir] when the key is absent. *)
Definition watchFdMap_subscript (key : Z) : M QDir :=
  m <- gets watchFdMap ;;
  match m !! key with
  | Some directory => ret directory
  | None =>
      modify (set_watchFdMap (<[key := QDir_default]> m)) ;;;
      ret QDir_default
  end.

(** [watchFdMap[key] = directory]. *)
Definition watchFdMap_assign (key : Z) (directory : QDir) : M unit :=
  modify (λ p, set_watchFdMap (<[key := directory]> (watchFdMap p)) p).

Definition watchFdMap_erase (key : Z) : M unit :=
  modify (λ p, set_watchFdMap (delete key (watchFdMap p)) p).

Definition eventsLoopTimer_start : M unit :=
  modify (λ p, set_eventsLoopTimer (QTimer_start (eventsLoopTimer p)) p).

Definition eventsLoopTimer_stop : M unit :=
  modify (λ p, set_eventsLoopTimer (QTimer_stop (eventsLoopTimer p)) p).

(** *** [PrivateData::readEventsFromFd] *)

Definition bufSize : Z := 4096.

(** The [for] loop over the buffer; [p] is the offset of the cursor from
    [buffer].  Every round moves the cursor by at least the size of a
    header, so [rv] rounds are more than enough. *)
Fixpoint readEventsLoop (fuel : nat) (buffer : list byte) (rv p : Z)
    (events : list INotifyEvent) : M (list INotifyEvent) :=
  if p <? rv then
    match fuel with
    | O => out_of_fuel
    | S fuel =>
        currentEvent <- deref (cast_inotify_event (drop (Z.to_nat p) buffer)) ;;
        relativePath <- deref (QString_of_c_str (inotify.name currentEvent)) ;;
        directory <- watchFdMap_subscript (inotify.wd currentEvent) ;;
        absolutePath <- ask (QDir_absolutePath directory) ;;
        readEventsLoop fuel buffer rv
          (p + (sizeof_inotify_event + inotify.len currentEvent))
          (events ++ [mkINotifyEvent (inotify.mask currentEvent)
                        (absolutePath +:+ "/" +:+ relativePath)])
    end
  else ret events.

Definition readEventsFromFd : M (list INotifyEvent) :=
  fd <- gets fd ;;
  r <- syscall (sys_read fd bufSize) ;;
  let '(rv, error, data) := r in
  if rv =? 0 then
    throw "read() on inotify FD must never return 0"
  else if rv =? -1 then
    if error =? EAGAIN then ret []
    else throw ("Failed to read from inotify fd: " +:+ strerror error)
  else
    readEventsLoop (Z.to_nat rv) (take (Z.to_nat rv) data) rv 0 [].

(** *** [PrivateData::PrivateData] *)

Definition PrivateData_new (k : K) : Outcome PrivateData * K :=
  let '((fd, error), k') := inotify_init1 IN_NONBLOCK k in
  if fd <? 0 then (Throw (mkError (strerror error)), k')
  else (Return (mkPrivateData [] (mkQTimer 0 false) fd ∅), k').

(** *** [PrivateData::startWatching(const QDir&)] *)

Definition startWatching_mask : Z := Z.lor fileChangeEvents fileRemovalEvents.

Definition startWatching (directory : QDir) : M bool :=
  present <- ask (QDir_exists directory) ;;
  if negb present then
    absolutePath <- ask (QDir_absolutePath directory) ;;
    cerr_endl ("Warning: directory " +:+ absolutePath
               +:+ " does not exist, skipping") ;;;
    ret true
  else
    fd <- gets fd ;;
    absolutePath <- ask (QDir_absolutePath directory) ;;
    r <- syscall (inotify_add_watch fd absolutePath startWatching_mask) ;;
    let '(watchFd, error) := r in
    if watchFd =? -1 then
      cerr_endl ("Failed to start watching: " +:+ strerror error) ;;;
      ret false
    else
      watchFdMap_assign watchFd directory ;;;
      eventsLoopTimer_start ;;;
      ret true.

(** *** [PrivateData::startWatching()] *)

Fixpoint startWatching_each (directories : list QDir) : M bool :=
  match directories with
  | [] => ret true
  | directory :: rest =>
      ok <- startWatching directory ;;
      if negb ok then ret false else startWatching_each rest
  end.

Definition startWatching_all : M bool :=
  directories <- gets watchedDirectories ;;
  startWatching_each directories.

(** *** [PrivateData::stopWatching(int)] *)

Definition stopWatching (watchFd : Z) : M bool :=
  fd <- gets fd ;;
  r <- syscall (inotify_rm_watch fd watchFd) ;;
  let '(rc, error) := r in
  if rc =? -1 then
    cerr_endl ("Failed to stop watching: " +:+ strerror error) ;;;
    ret false
  else
    watchFdMap_erase watchFd ;;;
    eventsLoopTimer_stop ;;;
    ret true.

(** *** [PrivateData::stopWatching()] *)

(** The [while] loop; every round that goes on has erased an entry. *)
Fixpoint stopWatchingLoop (fuel : nat) : M bool :=
  m <- gets watchFdMap ;;
  match map_begin m with
  | None => eventsLoopTimer_stop ;;; ret true
  | Some first =>
      match fuel with
      | O => out_of_fuel
      | S fuel =>
          let watchFd := first.1 in
          ok <- stopWatching watchFd ;;
          if negb ok then ret false else stopWatchingLoop fuel
      end
  end.

Definition stopWatching_all : M bool :=
  m <- gets watchFdMap ;;
  stopWatchingLoop (size m).

(** *** [FileSystemWatcher::FileSystemWatcher] *)

Definition FileSystemWatcher_new (paths : list QDir) (k : K)
    : Outcome (State K) :=
  match PrivateData_new k with
  | (Return p, k') =>
      let p := set_eventsLoopTimer (QTimer_setInterval 100 (eventsLoopTimer p)) p in
      Return (mkState (mkPrivateData paths (eventsLoopTimer p) (fd p) (watchFdMap p))
                      k' [] [])
  | (Throw e, _) => Throw e
  | (Undefined, _) => Undefined
  | (OutOfFuel, _) => OutOfFuel
  end.

(** *** [FileSystemWatcher::readEvents] *)

Definition classify (event : INotifyEvent) : M unit :=
  let mask := mask event in
  if negb (Z.land mask fileChangeEvents =? 0) then
    emit (fileChanged (path event))
  else if negb (Z.land mask fileRemovalEvents =? 0) then
    emit (fileRemoved (path event))
  else ret tt.

Fixpoint for_each {A} (l : list A) (body : A → M unit) : M unit :=
  match l with
  | [] => ret tt
  | x :: rest => body x ;;; for_each rest body
  end.

Definition readEvents : M unit :=
  events <- readEventsFromFd ;;
  for_each events classify.

End Operations.

(** ** Raw records as the kernel lays them out *)

(** A raw record: the watch handle, the flags, the cookie, the name of the
    entry and the number of NUL bytes after the name (the terminator and the
    padding). *)
Record RawEvent := mkRawEvent {
  raw_wd : Z;
  raw_mask : Z;
  raw_cookie : Z;
  raw_name : list byte;
  raw_pad : nat
}.

(** The [len] field: the name with its terminator and padding. *)
Definition raw_len (r : RawEvent) : Z :=
  Z.of_nat (length (raw_name r) + raw_pad r).

Definition byte_of_Z (z : Z) : byte :=
  default x00 (Byte.of_N (Z.to_N (z mod 256))).

Definition bytes_of_uint32 (z : Z) : list byte :=
  [byte_of_Z z; byte_of_Z (z / 256); byte_of_Z (z / 65536);
   byte_of_Z (z / 16777216)].

Definition bytes_of_int (z : Z) : list byte := bytes_of_uint32 (z mod 2 ^ 32).

Definition encode (r : RawEvent) : list byte :=
  bytes_of_int (raw_wd r) ++ bytes_of_uint32 (raw_mask r)
  ++ bytes_of_uint32 (raw_cookie r) ++ bytes_of_uint32 (raw_len r)
  ++ raw_name r ++ replicate (raw_pad r) x00.

(** The fields fit their types, the name holds no NUL and is terminated. *)
Definition RawEvent_wf (r : RawEvent) : bool :=
  (- 2 ^ 31 <=? raw_wd r) && (raw_wd r <? 2 ^ 31)
  && (0 <=? raw_mask r) && (raw_mask r <? 2 ^ 32)
  && (0 <=? raw_cookie r) && (raw_cookie r <? 2 ^ 32)
  && (raw_len r <? 2 ^ 32)
  && forallb (λ b, negb (Byte.eqb b x00)) (raw_name r)
  && (0 <? raw_pad r)%nat.

(** The two categories of flags. *)
Definition is_change (flags : Z) : bool := negb (Z.land flags fileChangeEvents =? 0).
Definition is_removal (flags : Z) : bool := negb (Z.land flags fileRemovalEvents =? 0).

(** The semantic event a raw record of a directory stands for, if any. *)
Definition semantic_event (directory_path : QString) (r : RawEvent)
    : option Signal :=
  let file := directory_path +:+ "/" +:+ string_of_list_byte (raw_name r) in
  if is_change (raw_mask r) then Some (fileChanged file)
  else if is_removal (raw_mask r) then Some (fileRemoved file)
  else None.

(** ** What the operations are compared with *)

Section Specifications.

Context {K : Type} `{!OS K}.

(** The event [readEventsFromFd] builds for a record of a known handle. *)
Definition event_of (s : State K) (r : RawEvent) : INotifyEvent :=
  mkINotifyEvent (raw_mask r)
    (QDir_absolutePath (default QDir_default (watchFdMap (d s) !! raw_wd r))
       (os s)
     +:+ "/" +:+ string_of_list_byte (raw_name r)).

(** What [classify] adds to the emitted signals. *)
Definition signals_of (event : INotifyEvent) : list Signal :=
  if negb (Z.land (mask event) fileChangeEvents =? 0) then [fileChanged (path event)]
  else if negb (Z.land (mask event) fileRemovalEvents =? 0) then [fileRemoved (path event)]
  else [].

(** The semantic event of a record, its directory looked up in a table. *)
Definition expected_event (m : gmap Z QDir) (k : K) (r : RawEvent)
    : option Signal :=
  directory ← m !! raw_wd r;
  semantic_event (QDir_absolutePath directory k) r.

(** What a bulk stop can end in: everything is gone and the timer is
    stopped, or the single stop of the handle [h] failed in the state [s1]
    and the call returned there and then, with the entries from [h] upwards
    (the failed one and those not yet processed) still in the table. *)
Definition bulk_outcome (s : State K) (r : bool) (s' : State K) : Prop :=
  (r = true ∧ watchFdMap (d s') = ∅
   ∧ isActive (eventsLoopTimer (d s')) = false)
  ∨ (r = false
     ∧ ∃ h s1, is_Some (watchFdMap (d s) !! h)
               ∧ stopWatching h s1 = (Return false, s')
               ∧ watchFdMap (d s1) = watchFdMap (d s')
               ∧ watchFdMap (d s')
                 = filter (λ kv, h ≤ kv.1) (watchFdMap (d s))).



End Specifications.

(** ** A scripted operating system, to run the code on concrete inputs *)

Module Scripted.

Record kernel := mk {
  cwd : QString;
  dirs : list QString;
  capacity : nat;
  next_wd : Z;
  watches : list Z;
  pending : list (Z * Z * list byte)
}.

Definition ENOSPC : Z := 28.
Definition EINVAL : Z := 22.

Definition absolutePath (dir : QDir) (k : kernel) : QString :=
  match dirPath dir with
  | EmptyString => cwd k
  | String "." EmptyString => cwd k
  | String "/" _ => dirPath dir
  | relative => cwd k +:+ "/" +:+ relative
  end.

Definition exists_ (dir : QDir) (k : kernel) : bool :=
  existsb (String.eqb (absolutePath dir k)) (dirs k).

Definition read (fd count : Z) (k : kernel) : (Z * Z * list byte) * kernel :=
  match pending k with
  | [] => ((-1, EAGAIN, []), k)
  | r :: rest =>
      (r, mk (cwd k) (dirs k) (capacity k) (next_wd k) (watches k) rest)
  end.

Definition init1 (flags : Z) (k : kernel) : (Z * Z) * kernel := ((3, 0), k).

Definition add_watch (fd : Z) (pathname : QString) (mask : Z) (k : kernel)
    : (Z * Z) * kernel :=
  match capacity k with
  | O => ((-1, ENOSPC), k)
  | S n =>
      ((next_wd k, 0),
       mk (cwd k) (dirs k) n (next_wd k + 1) (next_wd k :: watches k) (pending k))
  end.

Definition rm_watch (fd wd : Z) (k : kernel) : (Z * Z) * kernel :=
  if existsb (Z.eqb wd) (watches k) then
    ((0, 0),
     mk (cwd k) (dirs k) (capacity k) (next_wd k)
        (filter (λ w, w ≠ wd) (watches k)) (pending k))
  else ((-1, EINVAL), k).

Definition error_text (errnum : Z) : QString :=
  if errnum =? EAGAIN then "Resource temporarily unavailable"
  else if errnum =? EINVAL then "Invalid argument"
  else if errnum =? ENOSPC then "No space left on device"
  else "Unknown error".

#[export] Instance scripted_OS : OS kernel := {
  sys_read := read;
  inotify_init1 := init1;
  inotify_add_watch := add_watch;
  inotify_rm_watch := rm_watch;
  strerror := error_text;
  QDir_exists := exists_;
  QDir_absolutePath := absolutePath
}.

End Scripted.

Import Scripted.

Definition tmp_w : QDir := mkQDir "/tmp/w".
Definition tmp_v : QDir := mkQDir "/tmp/v".

(** A machine on which [/tmp/w] and [/tmp/v] exist. *)
Definition machine (capacity : nat) (pending : list (Z * Z * list byte))
    : Scripted.kernel :=
  Scripted.mk "/home/user" ["/tmp/w"; "/tmp/v"]%string capacity 1 [] pending.

(** A watcher on [machine], with nothing registered. *)
Definition fresh (k : Scripted.kernel) : State Scripted.kernel :=
  mkState (mkPrivateData [tmp_w; tmp_v] (mkQTimer 100 false) 3 ∅) k [] [].

(** The record for [name] in the directory of handle [wd], padded to 16. *)
Definition record (wd flags : Z) (name : string) : RawEvent :=
  let bytes := list_byte_of_string name in
  mkRawEvent wd flags 0 bytes (16 - length bytes mod 16).

Definition successful_read (recs : list RawEvent) : Z * Z * list byte :=
  let data := concat (encode <$> recs) in (Z.of_nat (length data), 0, data).

(** Run one operation after another, keeping the state. *)
Definition exec {K A} (m : M K A) (s : State K) : State K := (m s).2.

(** Both directories registered: [/tmp/w] has handle 1, [/tmp/v] handle 2. *)
Definition watching (pending : list (Z * Z * list byte))
    : State Scripted.kernel :=
  exec (startWatching tmp_v) (exec (startWatching tmp_w) (fresh (machine 5 pending))).

Definition four_records : list RawEvent :=
  [record 1 IN_CLOSE_WRITE "a.txt"; record 2 IN_DELETE "b.txt";
   record 1 IN_IGNORED "c"; record 2 IN_MOVED_FROM "d"].

(** The record the kernel queues when a watch is removed: no name. *)
Definition ignored (wd : Z) : RawEvent := mkRawEvent wd IN_IGNORED 0 [] 0.

Definition missing : QDir := mkQDir "/tmp/missing".

(** The table says 1 and 2, the kernel only knows the watch 1. *)
Definition half_known : State Scripted.kernel :=
  mkState (mkPrivateData [] (mkQTimer 100 true) 3
             (<[1 := tmp_w]> (<[2 := tmp_v]> ∅)))
          (Scripted.mk "/home/user" ["/tmp/w"; "/tmp/v"]%string 3 3 [1] [])
          [] [].

(** ** The rest of the public interface *)

(** [QDir::mkdir]: whether the directory was created, and the new state of
    the file system. *)
Class Mkdir (K : Type) := {
  QDir_mkdir : QString → K → bool * K
}.

Section Interface.

Context {K : Type} `{!OS K} `{!Mkdir K}.

(** [FileSystemWatcher::directories]. *)
Definition directories : M K (list QDir) := gets watchedDirectories.

(** [FileSystemWatcher::startWatching] and [FileSystemWatcher::stopWatching]
    hand over to the private data. *)
Definition FileSystemWatcher_startWatching : M K bool := startWatching_all.
Definition FileSystemWatcher_stopWatching : M K bool := stopWatching_all.

(** [FileSystemWatcher::FileSystemWatcher(const QDir&)]: the delegated
    constructor runs first; the directory is created when it is absent and
    the result of [mkdir] is dropped; the directory goes into the set of
    declared directories, which the delegated constructor left empty. *)
Definition FileSystemWatcher_new_directory (directory : QDir) (k : K)
    : Outcome (State K) :=
  match FileSystemWatcher_new [] k with
  | Return s =>
      let k1 :=
        if negb (QDir_exists directory (os s)) then
          (QDir_mkdir (QDir_absolutePath directory (os s)) (os s)).2
        else os s in
      Return (mkState
                (mkPrivateData (watchedDirectories (d s) ++ [directory])
                   (eventsLoopTimer (d s)) (fd (d s)) (watchFdMap (d s)))
                k1 (cerr s) (emitted s))
  | Throw e => Throw e
  | Undefined => Undefined
  | OutOfFuel => OutOfFuel
  end.

(** The line [startWatching] writes for a directory it skips. *)
Definition skip_warning (k : K) (directory : QDir) : QString :=
  "Warning: directory " +:+ QDir_absolutePath directory k
  +:+ " does not exist, skipping".

(** The table after [watchFdMap[key]] was read. *)
Definition subscripted (m : gmap Z QDir) (key : Z) : gmap Z QDir :=
  match m !! key with
  | Some _ => m
  | None => <[key := QDir_default]> m
  end.

(** The directory [watchFdMap[key]] yields. *)
Definition resolved (m : gmap Z QDir) (key : Z) : QDir :=
  default QDir_default (m !! key).

(** The event [readEventsFromFd] builds for a record, known handle or
    not. *)
Definition resolved_record (m : gmap Z QDir) (k : K) (r : RawEvent)
    : INotifyEvent :=
  mkINotifyEvent (raw_mask r)
    (QDir_absolutePath (resolved m (raw_wd r)) k
     +:+ "/" +:+ string_of_list_byte (raw_name r)).

(** The semantic event of a record, its directory being the one the
    subscript yields. *)
Definition resolved_event (m : gmap Z QDir) (k : K) (r : RawEvent)
    : option Signal :=
  semantic_event (QDir_absolutePath (resolved m (raw_wd r)) k) r.

(** What reading may do to the private data: the table keeps every entry and
    gains only entries bound to [QDir()]; the rest stays. *)
Definition table_grown (p p' : PrivateData) : Prop :=
  watchedDirectories p' = watchedDirectories p
  ∧ eventsLoopTimer p' = eventsLoopTimer p
  ∧ fd p' = fd p
  ∧ (∀ h directory,
        watchFdMap p !! h = Some directory →
        watchFdMap p' !! h = Some directory)
  ∧ (∀ h directory,
        watchFdMap p' !! h = Some directory →
        watchFdMap p !! h = Some directory
        ∨ (watchFdMap p !! h = None ∧ directory = QDir_default)).

(** What registering may do to the private data: no handle leaves the table,
    a running timer keeps running, the rest stays. *)
Definition registrations_kept (p p' : PrivateData) : Prop :=
  watchedDirectories p' = watchedDirectories p
  ∧ fd p' = fd p
  ∧ (∀ h, is_Some (watchFdMap p !! h) → is_Some (watchFdMap p' !! h))
  ∧ (isActive (eventsLoopTimer p) = true →
     isActive (eventsLoopTimer p') = true)
  ∧ interval (eventsLoopTimer p') = interval (eventsLoopTimer p).

End Interface.

(** [mkdir] on the scripted system: the directory is there afterwards. *)
#[export] Instance scripted_Mkdir : Mkdir Scripted.kernel := {
  QDir_mkdir := λ dirName k,
    (negb (existsb (String.eqb dirName) (Scripted.dirs k)),
     Scripted.mk (Scripted.cwd k)
       (if existsb (String.eqb dirName) (Scripted.dirs k) then Scripted.dirs k
        else Scripted.dirs k ++ [dirName])
       (Scripted.capacity k) (Scripted.next_wd k) (Scripted.watches k)
       (Scripted.pending k))
}.

(** A watcher on the scripted system that declares [directories]. *)
Definition declaring (directories : list QDir) (k : Scripted.kernel)
    : State Scripted.kernel :=
  mkState (mkPrivateData directories (mkQTimer 100 false) 3 ∅) k [] [].

Definition absent : QDir := mkQDir "/tmp/absent".

(** Records of the handles 1 (registered), 7 and -1 (not registered). *)
Definition mixed_records : list RawEvent :=
  [record 7 IN_DELETE "x"; record 1 IN_CLOSE_WRITE "a.txt";
   record (-1) IN_MOVED_TO "q"; record 7 IN_IGNORED "y"].

(** A system without resources: every call fails. *)
Module Exhausted.

Definition EMFILE : Z := 24.

#[export] Instance exhausted_OS : OS unit := {
  sys_read := λ _ _ k, ((-1, EMFILE, []), k);
  inotify_init1 := λ _ k, ((-1, EMFILE), k);
  inotify_add_watch := λ _ _ _ k, ((-1, EMFILE), k);
  inotify_rm_watch := λ _ _ k, ((-1, EMFILE), k);
  strerror := λ _, "Too many open files"%string;
  QDir_exists := λ _ _, false;
  QDir_absolutePath := λ dir _, dirPath dir
}.

#[export] Instance exhausted_Mkdir : Mkdir unit := {
  QDir_mkdir := λ _ k, (false, k)
}.

End Exhausted.

(** * Theorems *)

(** ** Bytes and records *)

Lemma u8_byte_of_Z (z : Z) : u8 (byte_of_Z z) = z mod 256.
Proof.
  unfold u8, byte_of_Z.
  pose proof (Z.mod_pos_bound z 256 ltac:(lia)) as Hz.
  destruct (Byte.of_N (Z.to_N (z mod 256))) as [b|] eqn:Hb; simpl.
  - apply Byte.to_of_N in Hb. rewrite Hb. lia.
  - apply Byte.of_N_None_iff in Hb. lia.
Qed.

Lemma uint32_of_bytes_of_uint32 (z : Z) :
  0 ≤ z < 2 ^ 32 →
  uint32_of_bytes (byte_of_Z z) (byte_of_Z (z / 256)) (byte_of_Z (z / 65536))
                  (byte_of_Z (z / 16777216)) = z.
Proof.
  intros Hz. unfold uint32_of_bytes. rewrite !u8_byte_of_Z.
  change 65536 with (256 * 256). change 16777216 with (256 * 256 * 256).
  rewrite <- !Z.div_div by lia.
  set (a := z / 256). set (b := a / 256). set (c := b / 256).
  assert (c mod 256 = c) as ->.
  { apply Z.mod_small. subst a b c.
    split; [repeat apply Z.div_pos; lia|].
    repeat (apply Z.div_lt_upper_bound; [lia|]). lia. }
  pose proof (Z.div_mod z 256 ltac:(lia)).
  pose proof (Z.div_mod a 256 ltac:(lia)).
  pose proof (Z.div_mod b 256 ltac:(lia)).
  subst a b c. lia.
Qed.

Lemma int_of_bytes_of_int (z : Z) :
  - 2 ^ 31 ≤ z < 2 ^ 31 →
  let u := z mod 2 ^ 32 in
  int_of_bytes (byte_of_Z u) (byte_of_Z (u / 256)) (byte_of_Z (u / 65536))
               (byte_of_Z (u / 16777216)) = z.
Proof.
  intros Hz u. unfold int_of_bytes.
  pose proof (Z.mod_pos_bound z (2 ^ 32) ltac:(lia)) as Hu. fold u in Hu.
  rewrite uint32_of_bytes_of_uint32 by lia.
  destruct (Z.ltb_spec u (2 ^ 31)) as [Hlt|Hge].
  - destruct (Z.lt_ge_cases z 0) as [Hneg|Hpos].
    + assert (u = z + 2 ^ 32); [|lia].
      subst u. symmetry. apply Z.mod_unique with (q := -1); lia.
    + subst u. apply Z.mod_small. lia.
  - destruct (Z.lt_ge_cases z 0) as [Hneg|Hpos].
    + assert (u = z + 2 ^ 32); [|lia].
      subst u. symmetry. apply Z.mod_unique with (q := -1); lia.
    + assert (u = z); [|lia]. subst u. apply Z.mod_small. lia.
Qed.

Lemma RawEvent_wf_spec (r : RawEvent) :
  RawEvent_wf r = true →
  - 2 ^ 31 ≤ raw_wd r < 2 ^ 31 ∧ 0 ≤ raw_mask r < 2 ^ 32
  ∧ 0 ≤ raw_cookie r < 2 ^ 32 ∧ 0 ≤ raw_len r < 2 ^ 32
  ∧ Forall (λ b, b ≠ x00) (raw_name r) ∧ (0 < raw_pad r)%nat.
Proof.
  unfold RawEvent_wf. rewrite !andb_true_iff.
  intros [[[[[[[[H1 H2] H3] H4] H5] H6] H7] H8] H9].
  apply Z.leb_le in H1, H3, H5. apply Z.ltb_lt in H2, H4, H6, H7.
  apply Nat.ltb_lt in H9.
  split; [lia|]. split; [lia|]. split; [lia|].
  split; [unfold raw_len in *; lia|]. split; [|lia].
  apply Forall_forall. intros b Hb.
  rewrite forallb_forall in H8. specialize (H8 b).
  rewrite <- list_elem_of_In in H8. specialize (H8 Hb).
  intros ->. discriminate.
Qed.

Lemma c_str_terminated (name rest : list byte) (pad : nat) :
  Forall (λ b, b ≠ x00) name → (0 < pad)%nat →
  c_str (name ++ replicate pad x00 ++ rest) = Some name.
Proof.
  intros Hname Hpad. induction Hname as [|b name Hb _ IH]; simpl.
  - destruct pad; [lia|]. reflexivity.
  - destruct (Byte.eqb b x00) eqn:E.
    + apply Byte.byte_dec_bl in E. contradiction.
    + rewrite IH. reflexivity.
Qed.

Lemma cast_inotify_event_encode (r : RawEvent) (rest : list byte) :
  RawEvent_wf r = true →
  cast_inotify_event (encode r ++ rest)
  = Some (inotify.mkEvent (raw_wd r) (raw_mask r) (raw_cookie r) (raw_len r)
            (raw_name r ++ replicate (raw_pad r) x00 ++ rest)).
Proof.
  intros Hwf. apply RawEvent_wf_spec in Hwf as (Hwd & Hmask & Hcookie & Hlen & _).
  unfold encode, bytes_of_int, bytes_of_uint32. simpl.
  rewrite int_of_bytes_of_int by assumption.
  rewrite !uint32_of_bytes_of_uint32 by assumption.
  rewrite <- !app_assoc. reflexivity.
Qed.

Lemma length_encode (r : RawEvent) :
  Z.of_nat (length (encode r)) = sizeof_inotify_event + raw_len r.
Proof.
  unfold encode, bytes_of_int, bytes_of_uint32, raw_len, sizeof_inotify_event.
  simpl. rewrite length_app, length_replicate. lia.
Qed.

(** ** Running the monad *)

Ltac run :=
  unfold bind, ret, throw, gets, modify, syscall, ask, cerr_endl, emit,
    watchFdMap_assign, watchFdMap_erase, eventsLoopTimer_start,
    eventsLoopTimer_stop; simpl.

Section Registration.

Context {K : Type} `{!OS K}.

(** C2. A directory that does not exist on disk is skipped:
    [startWatching] writes the warning to the error stream, returns [true]
    and changes nothing else; in particular the table of handles is the one
    before the call. *)
Theorem startWatching_missing_directory (s : State K) (directory : QDir) :
  QDir_exists directory (os s) = false →
  startWatching directory s
  = (Return true,
     mkState (d s) (os s)
       (cerr s ++ ["Warning: directory "
                   +:+ QDir_absolutePath directory (os s)
                   +:+ " does not exist, skipping"])
       (emitted s)).
Proof.
  intros Hmissing. unfold startWatching. run. rewrite Hmissing. reflexivity.
Qed.

(** C7. When the directory exists and [inotify_add_watch] fails,
    [startWatching] writes the error to the error stream and returns
    [false]; the private data, and so the table of handles, is exactly what
    it was before the call. *)
Theorem startWatching_registration_failure (s : State K) (directory : QDir)
    (error : Z) (k' : K) :
  QDir_exists directory (os s) = true →
  inotify_add_watch (fd (d s)) (QDir_absolutePath directory (os s))
    startWatching_mask (os s) = ((-1, error), k') →
  startWatching directory s
  = (Return false,
     mkState (d s) k' (cerr s ++ ["Failed to start watching: " +:+ strerror error])
       (emitted s)).
Proof.
  intros Hpresent Hfail. unfold startWatching. run.
  rewrite Hpresent. simpl. rewrite Hfail. reflexivity.
Qed.

(** The outcome of a single [stopWatching] that the system refuses. *)
Lemma stopWatching_failure (s : State K) (watchFd error : Z) (k' : K) :
  inotify_rm_watch (fd (d s)) watchFd (os s) = ((-1, error), k') →
  stopWatching watchFd s
  = (Return false,
     mkState (d s) k' (cerr s ++ ["Failed to stop watching: " +:+ strerror error])
       (emitted s)).
Proof. intros Hfail. unfold stopWatching. run. rewrite Hfail. reflexivity. Qed.

(** The outcome of a single [stopWatching] that the system accepts. *)
Lemma stopWatching_success (s : State K) (watchFd rc error : Z) (k' : K) :
  inotify_rm_watch (fd (d s)) watchFd (os s) = ((rc, error), k') →
  rc ≠ -1 →
  stopWatching watchFd s
  = (Return true,
     mkState
       (mkPrivateData (watchedDirectories (d s))
          (QTimer_stop (eventsLoopTimer (d s))) (fd (d s))
          (delete watchFd (watchFdMap (d s))))
       k' (cerr s) (emitted s)).
Proof.
  intros Hok Hrc. unfold stopWatching. run. rewrite Hok.
  destruct (Z.eqb_spec rc (-1)); [contradiction|]. reflexivity.
Qed.

(** A single [stopWatching] always returns, with one of two outcomes. *)
Lemma stopWatching_cases (s : State K) (watchFd : Z) :
  (∃ error k', inotify_rm_watch (fd (d s)) watchFd (os s) = ((-1, error), k'))
  ∨ (∃ rc error k',
        inotify_rm_watch (fd (d s)) watchFd (os s) = ((rc, error), k')
        ∧ rc ≠ -1).
Proof.
  destruct (inotify_rm_watch (fd (d s)) watchFd (os s)) as [[rc error] k'].
  destruct (Z.eq_dec rc (-1)) as [->|Hrc]; [left|right]; eauto.
Qed.

(** C9. A successful [stopWatching(handle)] returns [true], erases the
    handle from the table and stops the timer, whatever else is registered:
    every other handle keeps its directory and the timer is stopped all the
    same. *)
Theorem stopWatching_erases_and_stops_timer (s : State K)
    (watchFd rc error : Z) (k' : K) :
  inotify_rm_watch (fd (d s)) watchFd (os s) = ((rc, error), k') →
  rc ≠ -1 →
  ∃ s', stopWatching watchFd s = (Return true, s')
        ∧ watchFdMap (d s') = delete watchFd (watchFdMap (d s))
        ∧ watchFdMap (d s') !! watchFd = None
        ∧ (∀ other, other ≠ watchFd →
                    watchFdMap (d s') !! other = watchFdMap (d s) !! other)
        ∧ isActive (eventsLoopTimer (d s')) = false.
Proof.
  intros Hok Hrc. eexists. split.
  - apply (stopWatching_success s watchFd rc error k' Hok Hrc).
  - simpl. split; [reflexivity|]. split; [apply lookup_delete_eq|].
    split; [|reflexivity].
    intros other Hother. apply lookup_delete_ne. congruence.
Qed.

End Registration.

(** ** The first entry of the table *)

Lemma map_begin_None (m : gmap Z QDir) : map_begin m = None ↔ m = ∅.
Proof.
  unfold map_begin. rewrite <- map_to_list_empty_iff.
  destruct (map_to_list m) as [|kv l]; simpl; [tauto|].
  split; [|discriminate].
  destruct (foldr _ None l) as [kv'|]; [|discriminate].
  destruct (kv.1 <? kv'.1); discriminate.
Qed.

Lemma map_begin_Some (m : gmap Z QDir) (k : Z) (v : QDir) :
  map_begin m = Some (k, v) →
  m !! k = Some v ∧ ∀ k', is_Some (m !! k') → k ≤ k'.
Proof.
  unfold map_begin. intros Hbegin.
  assert ((k, v) ∈ map_to_list m
          ∧ ∀ kv, kv ∈ map_to_list m → k ≤ kv.1) as [Hin Hleast].
  { revert k v Hbegin.
    induction (map_to_list m) as [|kv l IH]; simpl; intros k v Hbegin;
      [discriminate|].
    destruct (foldr _ None l) as [[k0 v0]|] eqn:Hrest.
    - destruct (IH k0 v0 eq_refl) as [Hin0 Hleast0]. simpl in Hbegin.
      destruct (Z.ltb_spec kv.1 k0) as [Hlt|Hge];
        inversion Hbegin; subst; clear Hbegin; simpl in *.
      + split; [left|].
        intros kv' [->|Hin']%elem_of_cons; simpl; [lia|].
        specialize (Hleast0 kv' Hin'). lia.
      + split; [right; assumption|].
        intros kv' [->|Hin']%elem_of_cons; [lia|].
        apply Hleast0, Hin'.
    - inversion Hbegin; subst; clear Hbegin.
      split; [left|].
      intros kv' [->|Hin']%elem_of_cons; simpl; [lia|].
      destruct l; [inversion Hin'|]. simpl in Hrest.
      destruct (foldr _ None l) as [kv''|]; [|discriminate].
      destruct (p.1 <? kv''.1); discriminate. }
  split; [apply elem_of_map_to_list, Hin|].
  intros k' [v' Hk']. apply (Hleast (k', v')), elem_of_map_to_list, Hk'.
Qed.

(** Erasing the least key keeps exactly the entries above it. *)
Lemma filter_above_delete_least (m : gmap Z QDir) (k h : Z) :
  (∀ k', is_Some (m !! k') → k ≤ k') →
  is_Some (delete k m !! h) →
  filter (λ kv, h ≤ kv.1) (delete k m) = filter (λ kv, h ≤ kv.1) m.
Proof.
  intros Hleast Hh. apply map_eq. intros i.
  rewrite map_filter_delete.
  destruct (decide (i = k)) as [->|Hne].
  - rewrite lookup_delete_eq. symmetry. apply map_lookup_filter_None.
    right. intros v Hv. simpl.
    destruct (decide (h = k)) as [->|Hhk].
    + rewrite lookup_delete_eq in Hh. destruct Hh; discriminate.
    + rewrite lookup_delete_ne in Hh by congruence.
      specialize (Hleast h Hh). lia.
  - apply lookup_delete_ne. congruence.
Qed.

Lemma filter_above_least (m : gmap Z QDir) (k : Z) :
  (∀ k', is_Some (m !! k') → k ≤ k') →
  filter (λ kv, k ≤ kv.1) m = m.
Proof.
  intros Hleast. apply map_filter_id. intros i v Hi. simpl.
  apply Hleast. eauto.
Qed.

Section Deregistration.

Context {K : Type} `{!OS K}.

Lemma stopWatchingLoop_unfold (fuel : nat) (s : State K) :
  stopWatchingLoop fuel s
  = match map_begin (watchFdMap (d s)) with
    | None => (eventsLoopTimer_stop ;;; ret true) s
    | Some first =>
        match fuel with
        | O => out_of_fuel s
        | S fuel =>
            (ok <- stopWatching first.1 ;;
             if negb ok then ret false else stopWatchingLoop fuel) s
        end
    end.
Proof.
  destruct fuel; simpl; unfold bind at 1, gets; simpl;
    destruct (map_begin (watchFdMap (d s))); reflexivity.
Qed.

(** The loop returns whenever the fuel covers the entries of the table. *)
Lemma stopWatchingLoop_outcome (fuel : nat) :
  ∀ s : State K,
    (size (watchFdMap (d s)) ≤ fuel)%nat →
    ∃ r s', stopWatchingLoop fuel s = (Return r, s') ∧ bulk_outcome s r s'.
Proof.
  induction fuel as [|fuel IH]; intros s Hsize;
    rewrite stopWatchingLoop_unfold;
    destruct (map_begin (watchFdMap (d s))) as [[k v]|] eqn:Hbegin.
  - apply map_begin_Some in Hbegin as [Hk _].
    pose proof (map_size_ne_0_lookup_2 _ k (mk_is_Some _ _ Hk)). lia.
  - apply map_begin_None in Hbegin.
    exists true. eexists. split; [reflexivity|]. left. run. auto.
  - apply map_begin_Some in Hbegin as [Hk Hleast]. simpl.
    destruct (stopWatching_cases s k)
      as [(error & k' & Hfail)|(rc & error & k' & Hok & Hrc)].
    + pose proof (stopWatching_failure s k error k' Hfail) as Hstop.
      exists false. eexists. split.
      * unfold bind at 1. rewrite Hstop. reflexivity.
      * right. split; [reflexivity|]. exists k, s.
        split; [eauto|]. split; [exact Hstop|]. simpl.
        split; [reflexivity|]. symmetry. apply filter_above_least, Hleast.
    + pose proof (stopWatching_success s k rc error k' Hok Hrc) as Hstop.
      set (s2 := mkState _ _ _ _) in Hstop.
      destruct (IH s2) as (r & s' & Hloop & Hout).
      { subst s2. simpl. rewrite map_size_delete, Hk. lia. }
      exists r, s'. split.
      * unfold bind at 1. rewrite Hstop. simpl. exact Hloop.
      * destruct Hout as [Hall|(-> & h & s1 & Hh & Hs1 & Hsame & Hfilter)];
          [left; exact Hall|].
        right. split; [reflexivity|]. exists h, s1. subst s2. simpl in *.
        split.
        { destruct Hh as [x Hx]. apply lookup_delete_Some in Hx as [_ Hx].
          eauto. }
        split; [exact Hs1|]. split; [exact Hsame|].
        rewrite Hfilter. apply filter_above_delete_least; assumption.
  - apply map_begin_None in Hbegin.
    exists true. eexists. split; [reflexivity|]. left. run. auto.
Qed.





End Deregistration.

Section Reading.

Context {K : Type} `{!OS K}.

Lemma watchFdMap_subscript_known (s : State K) (key : Z) (directory : QDir) :
  watchFdMap (d s) !! key = Some directory →
  watchFdMap_subscript key s = (Return directory, s).
Proof. intros Hkey. unfold watchFdMap_subscript. run. rewrite Hkey. reflexivity. Qed.

(** The loop over a buffer of well-formed records of known handles, started
    at the boundary of a record, yields their events in order and leaves
    the state alone. *)
Lemma readEventsLoop_records (s : State K) (recs : list RawEvent) :
  Forall (λ r, RawEvent_wf r = true) recs →
  Forall (λ r, is_Some (watchFdMap (d s) !! raw_wd r)) recs →
  ∀ (fuel : nat) (before : list byte) (events : list INotifyEvent),
    (length recs ≤ fuel)%nat →
    readEventsLoop fuel (before ++ concat (encode <$> recs))
      (Z.of_nat (length (before ++ concat (encode <$> recs))))
      (Z.of_nat (length before)) events s
    = (Return (events ++ (event_of s <$> recs)), s).
Proof.
  intros Hwf Hknown. induction recs as [|r recs IH];
    intros fuel before events Hfuel.
  - simpl. rewrite !app_nil_r.
    destruct fuel; simpl; rewrite Z.ltb_irrefl; reflexivity.
  - apply Forall_cons in Hwf as [Hr Hwf].
    apply Forall_cons in Hknown as [[directory Hdir] Hknown].
    destruct fuel as [|fuel]; [simpl in Hfuel; lia|].
    pose proof (length_encode r) as Hlen.
    pose proof (RawEvent_wf_spec r Hr) as (_ & _ & _ & Hrlen & Hname & Hpad).
    cbn [fmap list_fmap concat readEventsLoop].
    assert ((Z.of_nat (length before)
             <? Z.of_nat (length (before ++ encode r ++ concat (encode <$> recs))))
            = true) as ->.
    { apply Z.ltb_lt. rewrite !length_app. unfold sizeof_inotify_event in Hlen.
      lia. }
    rewrite Nat2Z.id, drop_app_length.
    rewrite (cast_inotify_event_encode r _ Hr).
    unfold bind at 1. cbn [deref ret inotify.name].
    unfold bind at 1. unfold QString_of_c_str.
    rewrite (c_str_terminated _ _ _ Hname Hpad). cbn [fmap option_fmap option_map deref ret].
    unfold bind at 1. cbn [inotify.wd].
    rewrite (watchFdMap_subscript_known s _ directory Hdir).
    unfold bind at 1, ask. cbn [inotify.len inotify.mask].
    rewrite <- Hlen, <- Nat2Z.inj_add, <- length_app.
    rewrite (app_assoc before (encode r)).
    rewrite IH by (assumption || (simpl in Hfuel; lia)).
    unfold event_of at 2. rewrite Hdir. simpl.
    rewrite <- app_assoc. reflexivity.
Qed.

Lemma length_concat_encode (recs : list RawEvent) :
  (length recs ≤ length (concat (encode <$> recs)))%nat.
Proof.
  induction recs as [|r recs IH]; [simpl; lia|].
  cbn [fmap list_fmap concat length]. rewrite length_app.
  pose proof (length_encode r) as Hlen.
  unfold sizeof_inotify_event, raw_len in Hlen. lia.
Qed.

Lemma classify_signals (event : INotifyEvent) (s : State K) :
  classify event s
  = (Return tt, mkState (d s) (os s) (cerr s) (emitted s ++ signals_of event)).
Proof.
  unfold classify, signals_of.
  destruct (negb (Z.land (mask event) fileChangeEvents =? 0)); [reflexivity|].
  destruct (negb (Z.land (mask event) fileRemovalEvents =? 0)); [reflexivity|].
  unfold ret. rewrite app_nil_r. destruct s; reflexivity.
Qed.

Lemma for_each_classify (events : list INotifyEvent) :
  ∀ s : State K,
    for_each events classify s
    = (Return tt,
       mkState (d s) (os s) (cerr s) (emitted s ++ concat (signals_of <$> events))).
Proof.
  induction events as [|event events IH]; intros s; simpl.
  - unfold ret. rewrite app_nil_r. destruct s; reflexivity.
  - unfold bind. rewrite classify_signals, IH. simpl.
    rewrite <- app_assoc. reflexivity.
Qed.

End Reading.

Section Polling.

Context {K : Type} `{!OS K}.

Lemma signals_of_records (s : State K) (recs : list RawEvent) :
  Forall (λ r, is_Some (watchFdMap (d s) !! raw_wd r)) recs →
  concat (signals_of <$> (event_of s <$> recs))
  = omap (expected_event (watchFdMap (d s)) (os s)) recs.
Proof.
  induction 1 as [|r recs [directory Hdir] _ IH]; [reflexivity|].
  cbn [fmap list_fmap concat omap list_omap]. rewrite IH.
  assert (expected_event (watchFdMap (d s)) (os s) r
          = semantic_event (QDir_absolutePath directory (os s)) r) as ->.
  { unfold expected_event. rewrite Hdir. reflexivity. }
  unfold event_of, signals_of, semantic_event, is_change, is_removal.
  rewrite Hdir. cbn [mask path default from_option].
  destruct (negb (Z.land (raw_mask r) fileChangeEvents =? 0)); [reflexivity|].
  destruct (negb (Z.land (raw_mask r) fileRemovalEvents =? 0)); reflexivity.
Qed.

(** C1. When the read succeeds and fills the buffer with the records
    [recs], laid out one after the other, each well formed and bearing a
    registered handle, [readEvents] returns normally and emits, in the
    order of the records, [fileChanged] for a record whose flags meet the
    change category, else [fileRemoved] for one whose flags meet the removal
    category, and nothing for the others; the path of each signal is the
    absolute path of the directory of the handle, a slash and the name of
    the record.  Nothing else changes. *)
Theorem readEvents_emits_classified_records (s : State K)
    (recs : list RawEvent) (error : Z) (k' : K) :
  sys_read (fd (d s)) bufSize (os s)
  = ((Z.of_nat (length (concat (encode <$> recs))), error,
      concat (encode <$> recs)), k') →
  recs ≠ [] →
  Forall (λ r, RawEvent_wf r = true) recs →
  Forall (λ r, is_Some (watchFdMap (d s) !! raw_wd r)) recs →
  readEvents s
  = (Return tt,
     mkState (d s) k' (cerr s)
       (emitted s ++ omap (expected_event (watchFdMap (d s)) k') recs)).
Proof.
  intros Hread Hnonempty Hwf Hknown.
  pose proof (length_concat_encode recs) as Hlen.
  assert (0 < length recs)%nat by (destruct recs; [congruence|simpl; lia]).
  unfold readEvents, readEventsFromFd.
  unfold bind at 1. unfold bind at 1. unfold gets at 1.
  unfold bind at 1. unfold syscall. rewrite Hread.
  destruct (Z.eqb_spec (Z.of_nat (length (concat (encode <$> recs)))) 0);
    [lia|].
  destruct (Z.eqb_spec (Z.of_nat (length (concat (encode <$> recs)))) (-1));
    [lia|].
  rewrite Nat2Z.id, firstn_all.
  set (s1 := mkState (d s) k' (cerr s) (emitted s)).
  pose proof (readEventsLoop_records s1 recs Hwf Hknown
                (length (concat (encode <$> recs))) [] [] Hlen) as Hloop.
  cbn [app length] in Hloop. change (Z.of_nat 0) with 0 in Hloop.
  rewrite Hloop. rewrite for_each_classify. rewrite signals_of_records by exact Hknown.
  reflexivity.
Qed.

(** C5. When the read reports that no data is available (it returns -1
    with [EAGAIN]), [readEvents] returns normally, emits nothing and
    reports nothing. *)
Theorem readEvents_no_data (s : State K) (data : list byte) (k' : K) :
  sys_read (fd (d s)) bufSize (os s) = ((-1, EAGAIN, data), k') →
  readEvents s = (Return tt, mkState (d s) k' (cerr s) (emitted s)).
Proof.
  intros Hread. unfold readEvents, readEventsFromFd. run.
  rewrite Hread. reflexivity.
Qed.

(** C6. When the read returns zero bytes, [readEvents] throws the error
    "read() on inotify FD must never return 0" and emits nothing; the error
    thrown for a read that fails otherwise (the read returns -1 and the
    error is not [EAGAIN]) is another one, and nothing is emitted then
    either. *)
Theorem readEvents_zero_bytes (s s2 : State K) (error error2 : Z)
    (data data2 : list byte) (k' k2 : K) :
  sys_read (fd (d s)) bufSize (os s) = ((0, error, data), k') →
  sys_read (fd (d s2)) bufSize (os s2) = ((-1, error2, data2), k2) →
  error2 ≠ EAGAIN →
  ∃ e0 e2,
    readEvents s = (Throw e0, mkState (d s) k' (cerr s) (emitted s))
    ∧ what e0 = "read() on inotify FD must never return 0"
    ∧ readEvents s2 = (Throw e2, mkState (d s2) k2 (cerr s2) (emitted s2))
    ∧ e0 ≠ e2.
Proof.
  intros Hzero Hfail Herror.
  exists (mkError "read() on inotify FD must never return 0"),
    (mkError ("Failed to read from inotify fd: " +:+ strerror error2)).
  split; [|split; [reflexivity|split]].
  - unfold readEvents, readEventsFromFd. run. rewrite Hzero. reflexivity.
  - unfold readEvents, readEventsFromFd. run. rewrite Hfail. simpl.
    destruct (Z.eqb_spec error2 EAGAIN); [contradiction|]. reflexivity.
  - simpl. discriminate.
Qed.

(** C10. An event whose flags meet both the change and the removal
    category (a moved-away entry: [IN_MOVED_FROM] belongs to both) takes
    the change branch: exactly [fileChanged] is emitted for it, and no
    [fileRemoved].  Whatever its flags, an event makes [classify] emit at
    most one signal. *)
Theorem classify_change_before_removal (event : INotifyEvent) (s : State K) :
  Z.land (mask event) fileChangeEvents ≠ 0 →
  Z.land (mask event) fileRemovalEvents ≠ 0 →
  classify event s
  = (Return tt,
     mkState (d s) (os s) (cerr s) (emitted s ++ [fileChanged (path event)]))
  ∧ ∀ (other : INotifyEvent) (s0 : State K),
      ∃ signals,
        classify other s0
        = (Return tt, mkState (d s0) (os s0) (cerr s0) (emitted s0 ++ signals))
        ∧ (length signals ≤ 1)%nat.
Proof.
  intros Hchange _. split.
  - rewrite classify_signals. unfold signals_of.
    destruct (Z.eqb_spec (Z.land (mask event) fileChangeEvents) 0);
      [contradiction|]. reflexivity.
  - intros other s0. exists (signals_of other).
    split; [apply classify_signals|]. unfold signals_of.
    destruct (negb _); [simpl; lia|]. destruct (negb _); simpl; lia.
Qed.

End Polling.

(** ** The code on concrete inputs *)

Example watching_table :
  map_to_list (watchFdMap (d (watching []))) = [(2, tmp_v); (1, tmp_w)]
  ∧ map_begin (watchFdMap (d (watching []))) = Some (1, tmp_w)
  ∧ isActive (eventsLoopTimer (d (watching []))) = true.
Proof. vm_compute. auto. Qed.

Example close_write_is_changed :
  emitted (exec readEvents
             (watching [successful_read [record 1 IN_CLOSE_WRITE "a.txt"]]))
  = [fileChanged "/tmp/w/a.txt"].
Proof. vm_compute. reflexivity. Qed.

Example delete_is_removed :
  emitted (exec readEvents
             (watching [successful_read [record 1 IN_DELETE "b.txt"]]))
  = [fileRemoved "/tmp/w/b.txt"].
Proof. vm_compute. reflexivity. Qed.

Example stopWatching_all_stops_at_failure :
  ∃ s', stopWatching_all half_known = (Return false, s')
        ∧ map_to_list (watchFdMap (d s')) = [(2, tmp_v)]
        ∧ cerr s' = ["Failed to stop watching: Invalid argument"]%string.
Proof. exists (exec stopWatching_all half_known). vm_compute. auto. Qed.

Lemma readEvents_emits_classified_records_witness :
  emitted (exec readEvents (watching [successful_read four_records]))
  = [fileChanged "/tmp/w/a.txt"; fileRemoved "/tmp/v/b.txt";
     fileChanged "/tmp/v/d"].
Proof.
  unfold exec.
  rewrite (readEvents_emits_classified_records
             (watching [successful_read four_records]) four_records 0
             (os (watching []))).
  - vm_compute. reflexivity.
  - vm_compute. reflexivity.
  - discriminate.
  - repeat (constructor; [vm_compute; reflexivity|]). constructor.
  - repeat (constructor; [eexists; vm_compute; reflexivity|]). constructor.
Defined.

Lemma startWatching_missing_directory_witness :
  QDir_exists missing (os (fresh (machine 5 []))) = false
  ∧ startWatching missing (fresh (machine 5 []))
    = (Return true,
       mkState (d (fresh (machine 5 []))) (machine 5 [])
         ["Warning: directory /tmp/missing does not exist, skipping"]%string []).
Proof.
  split; [reflexivity|].
  rewrite (startWatching_missing_directory (fresh (machine 5 [])) missing)
    by reflexivity.
  reflexivity.
Defined.

Lemma readEvents_no_data_witness :
  readEvents (watching []) = (Return tt, watching []).
Proof.
  rewrite (readEvents_no_data (watching []) [] (os (watching [])))
    by (vm_compute; reflexivity).
  vm_compute. reflexivity.
Defined.

Lemma readEvents_zero_bytes_witness :
  ∃ e0 e2,
    (readEvents (watching [(0, 0, [])])).1 = Throw e0
    ∧ (readEvents (watching [(-1, 5, [])])).1 = Throw e2
    ∧ e0 ≠ e2.
Proof.
  destruct (readEvents_zero_bytes
              (watching [(0, 0, [])]) (watching [(-1, 5, [])]) 0 5 [] []
              (os (watching [])) (os (watching [])))
    as (e0 & e2 & H0 & _ & H2 & Hne).
  - vm_compute. reflexivity.
  - vm_compute. reflexivity.
  - unfold EAGAIN. lia.
  - exists e0, e2. rewrite H0, H2. auto.
Defined.

Lemma startWatching_registration_failure_witness :
  QDir_exists tmp_w (os (fresh (machine 0 []))) = true
  ∧ startWatching tmp_w (fresh (machine 0 []))
    = (Return false,
       mkState (d (fresh (machine 0 []))) (machine 0 [])
         ["Failed to start watching: No space left on device"]%string []).
Proof.
  split; [reflexivity|].
  rewrite (startWatching_registration_failure
             (fresh (machine 0 [])) tmp_w Scripted.ENOSPC (machine 0 []))
    by reflexivity.
  reflexivity.
Defined.


Lemma stopWatching_erases_and_stops_timer_witness :
  ∃ s', stopWatching 1 (watching []) = (Return true, s')
        ∧ watchFdMap (d s') !! 1 = None
        ∧ watchFdMap (d s') !! 2 = Some tmp_v
        ∧ isActive (eventsLoopTimer (d s')) = false.
Proof.
  destruct (stopWatching_erases_and_stops_timer (watching []) 1 0 0
              (os (exec (stopWatching 1) (watching []))))
    as (s' & Hstop & _ & Hgone & Hothers & Htimer).
  - vm_compute. reflexivity.
  - lia.
  - exists s'. split; [exact Hstop|]. split; [exact Hgone|].
    split; [|exact Htimer]. rewrite Hothers by lia. vm_compute. reflexivity.
Defined.

Lemma classify_change_before_removal_witness :
  classify (mkINotifyEvent IN_MOVED_FROM "/tmp/w/gone") (watching [])
  = (Return tt,
     mkState (d (watching [])) (os (watching [])) []
       [fileChanged "/tmp/w/gone"]).
Proof.
  destruct (classify_change_before_removal
              (mkINotifyEvent IN_MOVED_FROM "/tmp/w/gone") (watching []))
    as [Hchanged _]; [vm_compute; discriminate ..|].
  rewrite Hchanged. vm_compute. reflexivity.
Defined.

(** C3. Two directories are registered, [stopWatching] of the first handle
    succeeds and the next read delivers a record that still bears that
    handle: the call is defined and returns normally, but the record is not
    dropped; [fileChanged] is emitted for it, under the working directory of
    the process. *)
Theorem stale_handle_record_is_emitted :
  let s := watching [successful_read [record 1 IN_CLOSE_WRITE "a.txt"]] in
  ∃ stopped polled,
    stopWatching 1 s = (Return true, stopped)
    ∧ watchFdMap (d stopped) !! 1 = None
    ∧ readEvents stopped = (Return tt, polled)
    ∧ emitted polled = [fileChanged "/home/user/a.txt"].
Proof.
  intros s. exists (exec (stopWatching 1) s).
  exists (exec readEvents (exec (stopWatching 1) s)).
  vm_compute. auto.
Qed.

(** C4. After [stopWatching] of the first handle, a read that delivers the
    record of the removed watch followed by a record of the second handle
    makes [readEvents] change the table: the removed handle is back in it,
    bound to a default-constructed directory. *)
Theorem readEvents_inserts_unknown_handle :
  let s := watching [successful_read [ignored 1; record 2 IN_CLOSE_WRITE "b.txt"]] in
  ∃ stopped polled,
    stopWatching 1 s = (Return true, stopped)
    ∧ map_to_list (watchFdMap (d stopped)) = [(2, tmp_v)]
    ∧ readEvents stopped = (Return tt, polled)
    ∧ map_to_list (watchFdMap (d polled)) = [(2, tmp_v); (1, QDir_default)]
    ∧ emitted polled = [fileChanged "/tmp/v/b.txt"].
Proof.
  intros s. exists (exec (stopWatching 1) s).
  exists (exec readEvents (exec (stopWatching 1) s)).
  vm_compute. auto 10.
Qed.

(** ** Registration: the successful path and the batch *)

Section Registering.

Context {K : Type} `{!OS K}.

(** The outcome of a [startWatching] that the system accepts. *)
Lemma startWatching_success (s : State K) (directory : QDir)
    (watchFd error : Z) (k' : K) :
  QDir_exists directory (os s) = true →
  inotify_add_watch (fd (d s)) (QDir_absolutePath directory (os s))
    startWatching_mask (os s) = ((watchFd, error), k') →
  watchFd ≠ -1 →
  startWatching directory s
  = (Return true,
     mkState
       (mkPrivateData (watchedDirectories (d s))
          (QTimer_start (eventsLoopTimer (d s))) (fd (d s))
          (<[watchFd := directory]> (watchFdMap (d s))))
       k' (cerr s) (emitted s)).
Proof.
  intros Hpresent Hadd Hfd. unfold startWatching. run.
  rewrite Hpresent. simpl. rewrite Hadd.
  destruct (Z.eqb_spec watchFd (-1)); [contradiction|]. reflexivity.
Qed.

(** The outcome of a [startWatching] of a directory that is not there. *)
Lemma startWatching_skip (s : State K) (directory : QDir) :
  QDir_exists directory (os s) = false →
  startWatching directory s
  = (Return true,
     mkState (d s) (os s) (cerr s ++ [skip_warning (os s) directory])
       (emitted s)).
Proof.
  intros Hmissing. unfold startWatching, skip_warning. run.
  rewrite Hmissing. reflexivity.
Qed.

(** The outcome of a [startWatching] that the system refuses. *)
Lemma startWatching_refused (s : State K) (directory : QDir)
    (error : Z) (k' : K) :
  QDir_exists directory (os s) = true →
  inotify_add_watch (fd (d s)) (QDir_absolutePath directory (os s))
    startWatching_mask (os s) = ((-1, error), k') →
  startWatching directory s
  = (Return false,
     mkState (d s) k'
       (cerr s ++ ["Failed to start watching: " +:+ strerror error])
       (emitted s)).
Proof.
  intros Hpresent Hfail. unfold startWatching. run.
  rewrite Hpresent. simpl. rewrite Hfail. reflexivity.
Qed.

(** A [startWatching] skips, fails or registers. *)
Lemma startWatching_cases (s : State K) (directory : QDir) :
  QDir_exists directory (os s) = false
  ∨ (QDir_exists directory (os s) = true
     ∧ ∃ error k',
         inotify_add_watch (fd (d s)) (QDir_absolutePath directory (os s))
           startWatching_mask (os s) = ((-1, error), k'))
  ∨ (QDir_exists directory (os s) = true
     ∧ ∃ watchFd error k',
         inotify_add_watch (fd (d s)) (QDir_absolutePath directory (os s))
           startWatching_mask (os s) = ((watchFd, error), k')
         ∧ watchFd ≠ -1).
Proof.
  destruct (QDir_exists directory (os s)); [right|left; reflexivity].
  destruct (inotify_add_watch (fd (d s)) (QDir_absolutePath directory (os s))
              startWatching_mask (os s)) as [[watchFd error] k'].
  destruct (Z.eq_dec watchFd (-1)) as [->|Hfd]; [left|right]; eauto 6.
Qed.

(** When the directory exists and [inotify_add_watch] returns a handle,
    [startWatching] returns [true], binds the handle to the directory in the
    table (replacing what the handle was bound to), leaves the other handles
    alone, starts the timer and writes nothing. *)
Theorem startWatching_registers (s : State K) (directory : QDir)
    (watchFd error : Z) (k' : K) :
  QDir_exists directory (os s) = true →
  inotify_add_watch (fd (d s)) (QDir_absolutePath directory (os s))
    startWatching_mask (os s) = ((watchFd, error), k') →
  watchFd ≠ -1 →
  ∃ s', startWatching directory s = (Return true, s')
        ∧ watchFdMap (d s') !! watchFd = Some directory
        ∧ (∀ other, other ≠ watchFd →
                    watchFdMap (d s') !! other = watchFdMap (d s) !! other)
        ∧ isActive (eventsLoopTimer (d s')) = true
        ∧ os s' = k' ∧ cerr s' = cerr s ∧ emitted s' = emitted s.
Proof.
  intros Hpresent Hadd Hfd. eexists. split.
  - apply (startWatching_success s directory watchFd error k'); assumption.
  - simpl. split; [apply lookup_insert_eq|].
    split; [|auto]. intros other Hother. apply lookup_insert_ne. congruence.
Qed.

(** Round trip: registering a directory under a handle that the table does
    not hold, then deregistering that handle, gives the table back as it
    was.  The timer ends up stopped. *)
Theorem startWatching_stopWatching_round_trip (s : State K) (directory : QDir)
    (watchFd error rc error' : Z) (k1 k2 : K) :
  QDir_exists directory (os s) = true →
  inotify_add_watch (fd (d s)) (QDir_absolutePath directory (os s))
    startWatching_mask (os s) = ((watchFd, error), k1) →
  watchFd ≠ -1 →
  watchFdMap (d s) !! watchFd = None →
  inotify_rm_watch (fd (d s)) watchFd k1 = ((rc, error'), k2) →
  rc ≠ -1 →
  ∃ s1 s2, startWatching directory s = (Return true, s1)
           ∧ stopWatching watchFd s1 = (Return true, s2)
           ∧ watchFdMap (d s2) = watchFdMap (d s)
           ∧ isActive (eventsLoopTimer (d s2)) = false.
Proof.
  intros Hpresent Hadd Hfd Hfresh Hrm Hrc.
  pose proof (startWatching_success s directory watchFd error k1
                Hpresent Hadd Hfd) as Hstart.
  set (s1 := mkState _ _ _ _) in Hstart.
  exists s1. eexists. split; [exact Hstart|]. split.
  - apply (stopWatching_success s1 watchFd rc error' k2); assumption.
  - simpl. split; [|reflexivity]. apply delete_insert_id, Hfresh.
Qed.

(** The batch walks over the directories that do not exist, writing one
    warning for each. *)
Lemma startWatching_each_skips (skipped rest : list QDir) :
  ∀ s : State K,
    Forall (λ directory, QDir_exists directory (os s) = false) skipped →
    startWatching_each (skipped ++ rest) s
    = startWatching_each rest
        (mkState (d s) (os s) (cerr s ++ (skip_warning (os s) <$> skipped))
           (emitted s)).
Proof.
  induction skipped as [|directory skipped IH]; intros s Hmissing.
  - simpl. rewrite app_nil_r. destruct s; reflexivity.
  - apply Forall_cons in Hmissing as [Hdirectory Hmissing].
    cbn [app startWatching_each]. unfold bind at 1.
    rewrite (startWatching_skip s directory Hdirectory).
    cbn [negb]. rewrite IH by exact Hmissing. simpl.
    rewrite <- app_assoc. reflexivity.
Qed.

End Registering.

Section Batches.

Context {K : Type} `{!OS K}.

(** The batch [startWatching()] does not stop at directories that do not
    exist, and stops at the first registration the system refuses: with only
    missing directories before the refused one, it returns [false] after one
    warning for each of them and the error line, the directories after it
    are not looked at, and the private data is as before. *)
Theorem startWatching_all_stops_at_first_failure (s : State K)
    (skipped rest : list QDir) (directory : QDir) (error : Z) (k' : K) :
  watchedDirectories (d s) = skipped ++ directory :: rest →
  Forall (λ directory, QDir_exists directory (os s) = false) skipped →
  QDir_exists directory (os s) = true →
  inotify_add_watch (fd (d s)) (QDir_absolutePath directory (os s))
    startWatching_mask (os s) = ((-1, error), k') →
  startWatching_all s
  = (Return false,
     mkState (d s) k'
       (cerr s ++ (skip_warning (os s) <$> skipped)
        ++ ["Failed to start watching: " +:+ strerror error])
       (emitted s)).
Proof.
  intros Hdirs Hmissing Hpresent Hfail.
  unfold startWatching_all. unfold bind at 1, gets. rewrite Hdirs.
  rewrite startWatching_each_skips by exact Hmissing.
  cbn [startWatching_each]. unfold bind at 1.
  rewrite (startWatching_refused _ directory error k') by assumption.
  simpl. rewrite <- app_assoc. reflexivity.
Qed.

(** When none of the declared directories exists, the batch
    [startWatching()] returns [true] after one warning for each, in their
    order, and registers nothing. *)
Theorem startWatching_all_missing (s : State K) :
  Forall (λ directory, QDir_exists directory (os s) = false)
    (watchedDirectories (d s)) →
  startWatching_all s
  = (Return true,
     mkState (d s) (os s)
       (cerr s ++ (skip_warning (os s) <$> watchedDirectories (d s)))
       (emitted s)).
Proof.
  intros Hmissing. unfold startWatching_all. unfold bind at 1, gets.
  rewrite <- (app_nil_r (watchedDirectories (d s))) at 1.
  rewrite startWatching_each_skips by exact Hmissing. reflexivity.
Qed.

Lemma registrations_kept_refl (p : PrivateData) : registrations_kept p p.
Proof. unfold registrations_kept. auto. Qed.

Lemma registrations_kept_trans (p1 p2 p3 : PrivateData) :
  registrations_kept p1 p2 → registrations_kept p2 p3 →
  registrations_kept p1 p3.
Proof.
  unfold registrations_kept.
  intros (Hd1 & Hf1 & Hm1 & Ht1 & Hi1) (Hd2 & Hf2 & Hm2 & Ht2 & Hi2).
  repeat split; try congruence; auto.
Qed.

Lemma startWatching_keeps (s : State K) (directory : QDir) :
  ∃ r s', startWatching directory s = (Return r, s')
          ∧ registrations_kept (d s) (d s') ∧ emitted s' = emitted s.
Proof.
  destruct (startWatching_cases s directory)
    as [Hmissing|[(Hpresent & error & k' & Hfail)
                 |(Hpresent & watchFd & error & k' & Hadd & Hfd)]].
  - rewrite (startWatching_skip s directory Hmissing).
    do 2 eexists. split; [reflexivity|]. simpl.
    split; [apply registrations_kept_refl|reflexivity].
  - rewrite (startWatching_refused s directory error k' Hpresent Hfail).
    do 2 eexists. split; [reflexivity|]. simpl.
    split; [apply registrations_kept_refl|reflexivity].
  - rewrite (startWatching_success s directory watchFd error k'
               Hpresent Hadd Hfd).
    do 2 eexists. split; [reflexivity|]. simpl. split; [|reflexivity].
    unfold registrations_kept. simpl. repeat split; auto.
    intros h Hh. destruct (decide (h = watchFd)) as [->|Hne].
    + rewrite lookup_insert_eq. eauto.
    + rewrite lookup_insert_ne by congruence. exact Hh.
Qed.

Lemma startWatching_each_keeps (directories : list QDir) :
  ∀ s : State K,
    ∃ r s', startWatching_each directories s = (Return r, s')
            ∧ registrations_kept (d s) (d s') ∧ emitted s' = emitted s.
Proof.
  induction directories as [|directory directories IH]; intros s.
  - do 2 eexists. split; [reflexivity|].
    split; [apply registrations_kept_refl|reflexivity].
  - cbn [startWatching_each]. unfold bind at 1.
    destruct (startWatching_keeps s directory) as (r & s1 & -> & Hkept & Hem).
    destruct r; cbn [negb].
    + destruct (IH s1) as (r' & s' & -> & Hkept' & Hem').
      exists r', s'. split; [reflexivity|].
      split; [eapply registrations_kept_trans; eassumption|congruence].
    + exists false, s1. split; [reflexivity|]. auto.
Qed.

(** Whatever the system answers, the batch [startWatching()] returns a
    boolean (it neither throws nor runs into undefined behaviour), takes no
    handle out of the table, never stops a running timer, emits no signal
    and leaves the descriptor and the declared directories alone. *)
Theorem startWatching_all_keeps_registrations (s : State K) :
  ∃ r s', startWatching_all s = (Return r, s')
          ∧ registrations_kept (d s) (d s') ∧ emitted s' = emitted s.
Proof.
  unfold startWatching_all. unfold bind at 1, gets.
  apply startWatching_each_keeps.
Qed.

(** With an empty table the bulk [stopWatching()] makes no system call. *)
Lemma stopWatching_all_empty (s : State K) :
  watchFdMap (d s) = ∅ →
  stopWatching_all s
  = (Return true,
     mkState (set_eventsLoopTimer (QTimer_stop (eventsLoopTimer (d s))) (d s))
       (os s) (cerr s) (emitted s)).
Proof.
  intros Hempty. unfold stopWatching_all. unfold bind at 1, gets.
  rewrite stopWatchingLoop_unfold.
  apply map_begin_None in Hempty. rewrite Hempty. reflexivity.
Qed.

(** A bulk [stopWatching()] that has returned [true] has nothing left to do:
    called again it returns [true] again and changes nothing at all; no
    system call is made and nothing is written. *)
Theorem stopWatching_all_idempotent (s s' : State K) :
  stopWatching_all s = (Return true, s') →
  stopWatching_all s' = (Return true, s').
Proof.
  intros Hfirst.
  assert (watchFdMap (d s') = ∅ ∧ isActive (eventsLoopTimer (d s')) = false)
    as [Hempty Hstopped].
  { destruct (stopWatchingLoop_outcome (size (watchFdMap (d s))) s
                ltac:(reflexivity)) as (r & s1 & Hloop & Hout).
    unfold stopWatching_all in Hfirst. unfold bind at 1, gets in Hfirst.
    rewrite Hloop in Hfirst. inversion Hfirst; subst.
    destruct Hout as [(_ & Hempty & Hstopped)|(Hr & _)];
      [auto|discriminate]. }
  rewrite (stopWatching_all_empty s' Hempty). f_equal.
  destruct s' as [[dirs [msec active] fd0 table] k errs sigs].
  simpl in *. subst. reflexivity.
Qed.

(** The loop of the bulk stop adds nothing to the table, emits nothing and
    leaves the descriptor and the declared directories alone. *)
Lemma stopWatchingLoop_frame (fuel : nat) :
  ∀ (s : State K) (o : Outcome bool) (s' : State K),
    stopWatchingLoop fuel s = (o, s') →
    emitted s' = emitted s
    ∧ fd (d s') = fd (d s)
    ∧ watchedDirectories (d s') = watchedDirectories (d s)
    ∧ ∀ h directory,
        watchFdMap (d s') !! h = Some directory →
        watchFdMap (d s) !! h = Some directory.
Proof.
  induction fuel as [|fuel IH]; intros s o s' Hrun;
    rewrite stopWatchingLoop_unfold in Hrun;
    destruct (map_begin (watchFdMap (d s))) as [[k v]|] eqn:Hbegin;
    try (inversion Hrun; subst; simpl; auto; fail).
  simpl in Hrun.
  destruct (stopWatching_cases s k)
    as [(error & k' & Hfail)|(rc & error & k' & Hok & Hrc)].
  - unfold bind at 1 in Hrun.
    rewrite (stopWatching_failure s k error k' Hfail) in Hrun.
    inversion Hrun; subst; simpl; auto.
  - unfold bind at 1 in Hrun.
    rewrite (stopWatching_success s k rc error k' Hok Hrc) in Hrun.
    simpl in Hrun. apply IH in Hrun as (Hem & Hfd & Hdirs & Htable).
    simpl in *. repeat split; try assumption.
    intros h directory Hh. apply Htable in Hh.
    apply lookup_delete_Some in Hh as [_ Hh]. exact Hh.
Qed.

(** Whatever the system answers, the bulk [stopWatching()] puts nothing new
    into the table and binds no handle to another directory, emits no
    signal, and leaves the descriptor and the declared directories alone. *)
Theorem stopWatching_all_frame (s : State K) :
  let s' := exec stopWatching_all s in
  emitted s' = emitted s
  ∧ fd (d s') = fd (d s)
  ∧ watchedDirectories (d s') = watchedDirectories (d s)
  ∧ ∀ h directory,
      watchFdMap (d s') !! h = Some directory →
      watchFdMap (d s) !! h = Some directory.
Proof.
  unfold exec, stopWatching_all. cbv zeta.
  change ((m <- gets watchFdMap ;; stopWatchingLoop (size m)) s)
    with (stopWatchingLoop (size (watchFdMap (d s))) s).
  destruct (stopWatchingLoop (size (watchFdMap (d s))) s) as [o s'] eqn:Hrun.
  apply (stopWatchingLoop_frame _ s o s' Hrun).
Qed.

End Batches.

(** ** Reading: any buffer, any handle *)

Section AnyBuffer.

Context {K : Type} `{!OS K}.

Lemma u8_nonneg (b : byte) : 0 ≤ u8 b.
Proof. unfold u8. apply N2Z.is_nonneg. Qed.

(** The [len] field is unsigned: the cursor never moves backwards. *)
Lemma cast_inotify_event_len (bytes : list byte) (ev : inotify.event) :
  cast_inotify_event bytes = Some ev → 0 ≤ inotify.len ev.
Proof.
  unfold cast_inotify_event.
  do 16 (destruct bytes as [|? bytes]; [discriminate|]).
  intros [= <-]. simpl. unfold uint32_of_bytes.
  repeat match goal with
         | |- context [u8 ?b] =>
             lazymatch goal with
             | _ : 0 ≤ u8 b |- _ => fail
             | _ => pose proof (u8_nonneg b)
             end
         end.
  lia.
Qed.

Lemma table_grown_refl (p : PrivateData) : table_grown p p.
Proof. unfold table_grown. auto 10. Qed.

Lemma table_grown_trans (p1 p2 p3 : PrivateData) :
  table_grown p1 p2 → table_grown p2 p3 → table_grown p1 p3.
Proof.
  unfold table_grown.
  intros (Hd1 & Ht1 & Hf1 & Hk1 & Hn1) (Hd2 & Ht2 & Hf2 & Hk2 & Hn2).
  repeat split; try congruence; [auto|].
  intros h directory Hh.
  destruct (Hn2 h directory Hh) as [H2|[H2 ->]]; [auto|].
  right. split; [|reflexivity].
  destruct (watchFdMap p1 !! h) as [other|] eqn:H1; [|reflexivity].
  apply Hk1 in H1. congruence.
Qed.

(** [watchFdMap[key]] in one equation. *)
Lemma watchFdMap_subscript_eq (s : State K) (key : Z) :
  watchFdMap_subscript key s
  = (Return (resolved (watchFdMap (d s)) key),
     mkState (set_watchFdMap (subscripted (watchFdMap (d s)) key) (d s))
       (os s) (cerr s) (emitted s)).
Proof.
  unfold watchFdMap_subscript, resolved, subscripted. run.
  destruct (watchFdMap (d s) !! key) eqn:Hkey; [|reflexivity].
  destruct s as [[] ? ? ?]. reflexivity.
Qed.

Lemma table_grown_subscripted (p : PrivateData) (key : Z) :
  table_grown p (set_watchFdMap (subscripted (watchFdMap p) key) p).
Proof.
  unfold table_grown, subscripted. simpl.
  destruct (watchFdMap p !! key) eqn:Hkey; [auto 10|].
  repeat split; try reflexivity.
  - intros h directory Hh. rewrite lookup_insert_ne; [exact Hh|congruence].
  - intros h directory Hh. destruct (decide (key = h)) as [->|Hne].
    + rewrite lookup_insert_eq in Hh. right. split; congruence.
    + rewrite lookup_insert_ne in Hh by exact Hne. auto.
Qed.

(** The loop on any buffer: with fuel for the bytes left it returns or runs
    into undefined behaviour; it keeps the table's entries and touches
    nothing outside the table. *)
Lemma readEventsLoop_grows (fuel : nat) (buffer : list byte) (rv : Z) :
  ∀ (p : Z) (events : list INotifyEvent) (s : State K),
    (Z.to_nat (rv - p) ≤ fuel)%nat →
    ∃ o s', readEventsLoop fuel buffer rv p events s = (o, s')
            ∧ (o = Undefined ∨ ∃ evs, o = Return evs)
            ∧ table_grown (d s) (d s')
            ∧ os s' = os s ∧ cerr s' = cerr s ∧ emitted s' = emitted s.
Proof.
  induction fuel as [|fuel IH]; intros p events s Hfuel.
  - simpl. destruct (Z.ltb_spec p rv); [lia|].
    do 2 eexists. split; [reflexivity|].
    split; [eauto|]. split; [apply table_grown_refl|auto].
  - cbn [readEventsLoop]. destruct (Z.ltb_spec p rv) as [Hlt|Hge].
    + unfold bind at 1.
      destruct (cast_inotify_event (drop (Z.to_nat p) buffer))
        as [currentEvent|] eqn:Hcast; cbn [deref].
      * pose proof (cast_inotify_event_len _ _ Hcast) as Hlen.
        unfold ret at 1. unfold bind at 1.
        destruct (QString_of_c_str (inotify.name currentEvent))
          as [relativePath|]; cbn [deref].
        -- unfold ret at 1. unfold bind at 1.
           rewrite watchFdMap_subscript_eq. unfold bind at 1, ask.
           cbn [os].
           match goal with
           | |- context [readEventsLoop fuel buffer rv ?p' ?evs ?s1] =>
               destruct (IH p' evs s1)
                 as (o & s' & Hrun & Hshape & Hgrown & Hos & Hcerr & Hem)
           end.
           { unfold sizeof_inotify_event. lia. }
           exists o, s'. split; [exact Hrun|]. split; [exact Hshape|].
           simpl in *. split; [|auto].
           eapply table_grown_trans; [|exact Hgrown].
           apply table_grown_subscripted.
        -- do 2 eexists. split; [reflexivity|].
           split; [auto|]. split; [apply table_grown_refl|auto].
      * do 2 eexists. split; [reflexivity|].
        split; [auto|]. split; [apply table_grown_refl|auto].
    + do 2 eexists. split; [reflexivity|].
      split; [eauto|]. split; [apply table_grown_refl|auto].
Qed.

(** Every way [readEvents] can end. *)
Lemma readEvents_outcomes (s : State K) :
  ∃ o s', readEvents s = (o, s')
          ∧ table_grown (d s) (d s') ∧ cerr s' = cerr s
          ∧ (o = Return tt
             ∨ (o = Undefined ∧ emitted s' = emitted s)
             ∨ ∃ e, o = Throw e ∧ d s' = d s ∧ emitted s' = emitted s
                    ∧ (what e = "read() on inotify FD must never return 0"
                       ∨ ∃ error,
                           what e = "Failed to read from inotify fd: "
                                    +:+ strerror error)).
Proof.
  unfold readEvents, readEventsFromFd.
  unfold bind at 1. unfold bind at 1. unfold gets at 1.
  unfold bind at 1. unfold syscall.
  destruct (sys_read (fd (d s)) bufSize (os s)) as [[[rv error] data] k'].
  destruct (Z.eqb_spec rv 0) as [->|Hrv0].
  { do 2 eexists. split; [reflexivity|]. simpl.
    split; [apply table_grown_refl|]. split; [reflexivity|].
    right. right. eexists. split; [reflexivity|]. simpl. auto. }
  destruct (Z.eqb_spec rv (-1)) as [->|Hrv1].
  { destruct (Z.eqb_spec error EAGAIN) as [->|Herror].
    - do 2 eexists. split; [reflexivity|]. simpl.
      split; [apply table_grown_refl|]. auto.
    - do 2 eexists. split; [reflexivity|]. simpl.
      split; [apply table_grown_refl|]. split; [reflexivity|].
      right. right. eexists. split; [reflexivity|]. simpl. eauto 6. }
  destruct (readEventsLoop_grows (Z.to_nat rv) (take (Z.to_nat rv) data) rv
              0 [] (mkState (d s) k' (cerr s) (emitted s)))
    as (o & s' & Hrun & Hshape & Hgrown & Hos & Hcerr & Hem).
  { rewrite Z.sub_0_r. reflexivity. }
  rewrite Hrun. simpl in *.
  destruct Hshape as [->|[evs ->]].
  - do 2 eexists. split; [reflexivity|].
    split; [exact Hgrown|]. split; [exact Hcerr|]. right. left. auto.
  - rewrite for_each_classify. do 2 eexists. split; [reflexivity|].
    simpl. split; [exact Hgrown|]. split; [exact Hcerr|]. left. reflexivity.
Qed.

(** The loop over the buffer always ends: whatever the system delivers,
    [readEvents] returns, throws or runs into undefined behaviour, and the
    rounds the loop is given (one for every byte read) are never used up. *)
Theorem readEvents_terminates (s : State K) :
  (readEvents s).1 ≠ OutOfFuel.
Proof.
  destruct (readEvents_outcomes s) as (o & s' & -> & _ & _ & Hcases). simpl.
  destruct Hcases as [->|[[-> _]|(e & -> & _)]]; discriminate.
Qed.

(** Whatever the system delivers and however it ends, [readEvents] takes no
    entry out of the table and binds no handle to another directory: the
    entries it adds are bound to [QDir()]; the descriptor, the declared
    directories, the timer and the error stream are as before. *)
Theorem readEvents_only_grows_table (s : State K) :
  table_grown (d s) (d (exec readEvents s))
  ∧ cerr (exec readEvents s) = cerr s.
Proof.
  unfold exec.
  destruct (readEvents_outcomes s) as (o & s' & -> & Hgrown & Hcerr & _).
  auto.
Qed.


End AnyBuffer.

Section AnyHandle.

Context {K : Type} `{!OS K}.

(** An entry the subscript adds yields what the subscript yields without
    it. *)
Lemma resolved_subscripted (m : gmap Z QDir) (key key' : Z) :
  resolved (subscripted m key) key' = resolved m key'.
Proof.
  unfold resolved, subscripted.
  destruct (m !! key) eqn:Hkey; [reflexivity|].
  destruct (decide (key = key')) as [<-|Hne].
  - rewrite lookup_insert_eq, Hkey. reflexivity.
  - rewrite lookup_insert_ne by exact Hne. reflexivity.
Qed.

Lemma resolved_record_subscripted (m : gmap Z QDir) (key : Z) (k : K)
    (recs : list RawEvent) :
  resolved_record (subscripted m key) k <$> recs = resolved_record m k <$> recs.
Proof.
  apply list_fmap_ext. intros _ r _. unfold resolved_record.
  rewrite resolved_subscripted. reflexivity.
Qed.

(** The loop over well-formed records, whatever their handles and whatever
    follows them in the buffer: one round for each, then the loop goes on
    behind them. *)
Lemma readEventsLoop_prefix (recs : list RawEvent) :
  Forall (λ r, RawEvent_wf r = true) recs →
  ∀ (tail : list byte) (fuel : nat) (before : list byte)
    (events : list INotifyEvent) (s : State K),
    readEventsLoop (length recs + fuel)
      (before ++ concat (encode <$> recs) ++ tail)
      (Z.of_nat (length (before ++ concat (encode <$> recs) ++ tail)))
      (Z.of_nat (length before)) events s
    = readEventsLoop fuel
        (before ++ concat (encode <$> recs) ++ tail)
        (Z.of_nat (length (before ++ concat (encode <$> recs) ++ tail)))
        (Z.of_nat (length (before ++ concat (encode <$> recs))))
        (events ++ (resolved_record (watchFdMap (d s)) (os s) <$> recs))
        (mkState
           (set_watchFdMap
              (foldl subscripted (watchFdMap (d s)) (raw_wd <$> recs)) (d s))
           (os s) (cerr s) (emitted s)).
Proof.
  intros Hwf. induction recs as [|r recs IH];
    intros tail fuel before events s.
  - cbn [fmap list_fmap concat length Nat.add foldl app].
    rewrite !app_nil_r. destruct s as [[] ? ? ?]. reflexivity.
  - apply Forall_cons in Hwf as [Hr Hwf]. specialize (IH Hwf).
    pose proof (length_encode r) as Hlen.
    pose proof (RawEvent_wf_spec r Hr) as (_ & _ & _ & Hrlen & Hname & Hpad).
    cbn [fmap list_fmap concat length Nat.add foldl].
    rewrite <- !(app_assoc (encode r)).
    cbn [readEventsLoop].
    assert ((Z.of_nat (length before)
             <? Z.of_nat (length (before ++ encode r
                                  ++ concat (encode <$> recs) ++ tail)))
            = true) as ->.
    { apply Z.ltb_lt. rewrite !length_app.
      unfold sizeof_inotify_event in Hlen. lia. }
    rewrite Nat2Z.id, drop_app_length.
    rewrite (cast_inotify_event_encode r _ Hr).
    unfold bind at 1. cbn [deref ret inotify.name].
    unfold bind at 1. unfold QString_of_c_str.
    rewrite (c_str_terminated _ _ _ Hname Hpad).
    cbn [fmap option_fmap option_map deref ret].
    unfold bind at 1. cbn [inotify.wd].
    rewrite watchFdMap_subscript_eq.
    unfold bind at 1, ask. cbn [inotify.len inotify.mask os].
    rewrite <- Hlen, <- Nat2Z.inj_add, <- length_app.
    specialize (IH tail fuel (before ++ encode r)
                  (events ++ [resolved_record (watchFdMap (d s)) (os s) r])
                  (mkState
                     (set_watchFdMap
                        (subscripted (watchFdMap (d s)) (raw_wd r)) (d s))
                     (os s) (cerr s) (emitted s))).
    rewrite <- !app_assoc in IH. cbn [d os cerr emitted] in IH.
    unfold resolved_record at 1 in IH.
    etransitivity; [exact IH|].
    cbn [watchFdMap set_watchFdMap app].
    rewrite resolved_record_subscripted. reflexivity.
Qed.

Lemma signals_of_resolved_records (m : gmap Z QDir) (k : K)
    (recs : list RawEvent) :
  concat (signals_of <$> (resolved_record m k <$> recs))
  = omap (resolved_event m k) recs.
Proof.
  induction recs as [|r recs IH]; [reflexivity|].
  cbn [fmap list_fmap concat omap list_omap]. rewrite IH.
  assert (signals_of (resolved_record m k r)
          = match resolved_event m k r with
            | Some signal => [signal]
            | None => []
            end) as ->.
  { unfold resolved_event, resolved_record, signals_of, semantic_event,
      is_change, is_removal.
    cbn [mask path].
    destruct (negb (Z.land (raw_mask r) fileChangeEvents =? 0));
      [reflexivity|].
    destruct (negb (Z.land (raw_mask r) fileRemovalEvents =? 0));
      reflexivity. }
  destruct (resolved_event m k r); reflexivity.
Qed.

(** Records of any handles.  When the read succeeds and fills the buffer
    with well-formed records, [readEvents] returns normally and classifies
    every record, in order; the directory of a record is what the table binds
    its handle to, and [QDir()] when the table does not hold the handle.
    Every handle the table did not hold is in it afterwards, bound to
    [QDir()]; nothing else changes. *)
Theorem readEvents_resolves_every_record (s : State K)
    (recs : list RawEvent) (error : Z) (k' : K) :
  sys_read (fd (d s)) bufSize (os s)
  = ((Z.of_nat (length (concat (encode <$> recs))), error,
      concat (encode <$> recs)), k') →
  recs ≠ [] →
  Forall (λ r, RawEvent_wf r = true) recs →
  readEvents s
  = (Return tt,
     mkState
       (set_watchFdMap
          (foldl subscripted (watchFdMap (d s)) (raw_wd <$> recs)) (d s))
       k' (cerr s)
       (emitted s ++ omap (resolved_event (watchFdMap (d s)) k') recs)).
Proof.
  intros Hread Hnonempty Hwf.
  pose proof (length_concat_encode recs) as Hlen.
  assert (0 < length recs)%nat by (destruct recs; [congruence|simpl; lia]).
  unfold readEvents, readEventsFromFd.
  unfold bind at 1. unfold bind at 1. unfold gets at 1.
  unfold bind at 1. unfold syscall. rewrite Hread.
  destruct (Z.eqb_spec (Z.of_nat (length (concat (encode <$> recs)))) 0);
    [lia|].
  destruct (Z.eqb_spec (Z.of_nat (length (concat (encode <$> recs)))) (-1));
    [lia|].
  rewrite Nat2Z.id, firstn_all.
  pose proof (readEventsLoop_prefix recs Hwf []
                (length (concat (encode <$> recs)) - length recs) [] []
                (mkState (d s) k' (cerr s) (emitted s))) as Hloop.
  rewrite !app_nil_r in Hloop. cbn [app length d os cerr emitted] in Hloop.
  change (Z.of_nat 0) with 0 in Hloop.
  replace (length recs + (length (concat (encode <$> recs)) - length recs))%nat
    with (length (concat (encode <$> recs))) in Hloop by lia.
  rewrite Hloop.
  assert (∀ fuel buffer p evs (s0 : State K),
            readEventsLoop fuel buffer p p evs s0 = (Return evs, s0))
    as Hdone.
  { intros fuel buffer p evs s0.
    destruct fuel; simpl; rewrite Z.ltb_irrefl; reflexivity. }
  rewrite Hdone. rewrite for_each_classify.
  rewrite signals_of_resolved_records. reflexivity.
Qed.

End AnyHandle.

(** ** Flags and signals *)

Section Flags.

Context {K : Type} `{!OS K}.

Lemma land_lor_zero (a b c : Z) :
  Z.land a (Z.lor b c) = 0 ↔ Z.land a b = 0 ∧ Z.land a c = 0.
Proof. rewrite Z.land_lor_distr_r. apply Z.lor_eq_0_iff. Qed.

(** The flags [startWatching] asks the kernel for are the flags [classify]
    answers to: a signal is emitted for an event exactly when its flags share
    a bit with the mask of [startWatching]; the flags the kernel adds on its
    own ([IN_IGNORED], [IN_ISDIR], [IN_Q_OVERFLOW]) emit nothing. *)
Theorem classify_emits_iff_requested (event : INotifyEvent) (s : State K) :
  emitted (exec (classify event) s) = emitted s
  ↔ Z.land (mask event) startWatching_mask = 0.
Proof.
  unfold exec. rewrite classify_signals. cbn [snd emitted].
  unfold startWatching_mask. rewrite land_lor_zero. unfold signals_of.
  destruct (Z.eqb_spec (Z.land (mask event) fileChangeEvents) 0) as [Hc|Hc];
    cbn [negb].
  - destruct (Z.eqb_spec (Z.land (mask event) fileRemovalEvents) 0)
      as [Hr|Hr]; cbn [negb].
    + rewrite app_nil_r. tauto.
    + split; [|tauto]. intros Heq.
      apply (f_equal length) in Heq. rewrite length_app in Heq.
      simpl in Heq. lia.
  - split; [|tauto]. intros Heq.
    apply (f_equal length) in Heq. rewrite length_app in Heq.
    simpl in Heq. lia.
Qed.

(** [fileRemoved] stands for deletions only: it is emitted exactly when
    [IN_DELETE] is set and none of [IN_CLOSE_WRITE], [IN_MOVED_FROM] and
    [IN_MOVED_TO] is.  [IN_MOVED_FROM], though listed among the removal
    flags, never leads to [fileRemoved]. *)
Theorem classify_removed_iff_delete_only (event : INotifyEvent) (s : State K) :
  emitted (exec (classify event) s) = emitted s ++ [fileRemoved (path event)]
  ↔ Z.land (mask event) IN_DELETE ≠ 0
    ∧ Z.land (mask event) IN_CLOSE_WRITE = 0
    ∧ Z.land (mask event) IN_MOVED_FROM = 0
    ∧ Z.land (mask event) IN_MOVED_TO = 0.
Proof.
  unfold exec. rewrite classify_signals. cbn [snd emitted].
  unfold signals_of, fileChangeEvents, fileRemovalEvents, IN_MOVE.
  destruct (Z.eqb_spec
              (Z.land (mask event)
                 (Z.lor IN_CLOSE_WRITE (Z.lor IN_MOVED_FROM IN_MOVED_TO))) 0)
    as [Hc|Hc]; cbn [negb].
  - apply land_lor_zero in Hc as [Hcw Hmove].
    apply land_lor_zero in Hmove as [Hfrom Hto].
    rewrite Z.land_lor_distr_r, Hfrom, Z.lor_0_r.
    destruct (Z.eqb_spec (Z.land (mask event) IN_DELETE) 0) as [Hd|Hd];
      cbn [negb].
    + split; [|tauto]. intros Heq. apply app_inv_head in Heq. discriminate.
    + tauto.
  - split.
    + intros Heq. apply app_inv_head in Heq. discriminate.
    + intros (_ & Hcw & Hfrom & Hto). exfalso. apply Hc.
      apply land_lor_zero. split; [exact Hcw|].
      apply land_lor_zero. auto.
Qed.

End Flags.

(** ** Construction *)

Section Construction.

Context {K : Type} `{!OS K} `{!Mkdir K}.

(** When [inotify_init1] returns a negative descriptor, both constructors
    throw [FileSystemWatcherError] with the text of the error. *)
Theorem construction_fails_without_inotify (paths : list QDir)
    (directory : QDir) (k k' : K) (fd0 error : Z) :
  inotify_init1 IN_NONBLOCK k = ((fd0, error), k') →
  fd0 < 0 →
  FileSystemWatcher_new paths k = Throw (mkError (strerror error))
  ∧ FileSystemWatcher_new_directory directory k
    = Throw (mkError (strerror error)).
Proof.
  intros Hinit Hfd.
  assert (∀ l, FileSystemWatcher_new l k = Throw (mkError (strerror error)))
    as Hnew.
  { intros l. unfold FileSystemWatcher_new, PrivateData_new. rewrite Hinit.
    destruct (Z.ltb_spec fd0 0); [reflexivity|lia]. }
  split; [apply Hnew|].
  unfold FileSystemWatcher_new_directory. rewrite Hnew. reflexivity.
Qed.

(** A watcher that was constructed holds a descriptor that is not negative,
    declares the directories it was given, has nothing registered and its
    timer, set to 100 ms, is not running; nothing was written or emitted.
    On such a watcher the bulk [stopWatching()] returns [true] and changes
    nothing, and [directories()] gives the declared directories back. *)
Theorem constructed_watcher_is_idle (paths : list QDir) (k : K) (s : State K) :
  FileSystemWatcher_new paths k = Return s →
  0 ≤ fd (d s)
  ∧ watchFdMap (d s) = ∅
  ∧ eventsLoopTimer (d s) = mkQTimer 100 false
  ∧ cerr s = [] ∧ emitted s = []
  ∧ directories s = (Return paths, s)
  ∧ FileSystemWatcher_stopWatching s = (Return true, s).
Proof.
  unfold FileSystemWatcher_new, PrivateData_new.
  destruct (inotify_init1 IN_NONBLOCK k) as [[fd0 error] k'].
  destruct (Z.ltb_spec fd0 0) as [Hneg|Hfd]; [discriminate|].
  intros [= <-]. simpl.
  split; [exact Hfd|]. do 5 (split; [reflexivity|]).
  unfold FileSystemWatcher_stopWatching.
  rewrite stopWatching_all_empty by reflexivity. reflexivity.
Qed.

(** The constructor for one directory, when [inotify_init1] succeeds:
    the watcher declares exactly that directory and registers nothing; the
    directory is created when it is absent, and only then. *)
Theorem construction_for_directory (directory : QDir) (k k' : K)
    (fd0 error : Z) :
  inotify_init1 IN_NONBLOCK k = ((fd0, error), k') →
  0 ≤ fd0 →
  FileSystemWatcher_new_directory directory k
  = Return
      (mkState (mkPrivateData [directory] (mkQTimer 100 false) fd0 ∅)
         (if QDir_exists directory k' then k'
          else (QDir_mkdir (QDir_absolutePath directory k') k').2)
         [] []).
Proof.
  intros Hinit Hfd.
  unfold FileSystemWatcher_new_directory, FileSystemWatcher_new,
    PrivateData_new.
  rewrite Hinit. destruct (Z.ltb_spec fd0 0); [lia|]. simpl.
  destruct (QDir_exists directory k'); reflexivity.
Qed.

End Construction.

(** ** The further theorems on concrete inputs *)

Lemma startWatching_registers_witness :
  ∃ s', startWatching tmp_w (fresh (machine 5 [])) = (Return true, s')
        ∧ watchFdMap (d s') !! 1 = Some tmp_w
        ∧ isActive (eventsLoopTimer (d s')) = true.
Proof.
  destruct (startWatching_registers (fresh (machine 5 [])) tmp_w 1 0
              (os (exec (startWatching tmp_w) (fresh (machine 5 [])))))
    as (s' & Hstart & Hbound & _ & Htimer & _).
  - reflexivity.
  - vm_compute. reflexivity.
  - lia.
  - exists s'. auto.
Defined.

Lemma startWatching_stopWatching_round_trip_witness :
  ∃ s1 s2,
    startWatching tmp_v (watching []) = (Return true, s1)
    ∧ stopWatching 3 s1 = (Return true, s2)
    ∧ watchFdMap (d s2) = watchFdMap (d (watching [])).
Proof.
  destruct (startWatching_stopWatching_round_trip (watching []) tmp_v 3 0 0 0
              (os (exec (startWatching tmp_v) (watching [])))
              (os (exec (stopWatching 3)
                     (exec (startWatching tmp_v) (watching [])))))
    as (s1 & s2 & Hstart & Hstop & Htable & _).
  - reflexivity.
  - vm_compute. reflexivity.
  - lia.
  - vm_compute. reflexivity.
  - vm_compute. reflexivity.
  - lia.
  - exists s1, s2. auto.
Defined.

Lemma startWatching_all_stops_at_first_failure_witness :
  startWatching_all (declaring [absent; missing; tmp_w; tmp_v] (machine 0 []))
  = (Return false,
     mkState (d (declaring [absent; missing; tmp_w; tmp_v] (machine 0 [])))
       (machine 0 [])
       ["Warning: directory /tmp/absent does not exist, skipping";
        "Warning: directory /tmp/missing does not exist, skipping";
        "Failed to start watching: No space left on device"]%string
       []).
Proof.
  rewrite (startWatching_all_stops_at_first_failure
             (declaring [absent; missing; tmp_w; tmp_v] (machine 0 []))
             [absent; missing] [tmp_v] tmp_w Scripted.ENOSPC (machine 0 [])).
  - reflexivity.
  - reflexivity.
  - repeat (constructor; [reflexivity|]). constructor.
  - reflexivity.
  - reflexivity.
Defined.

Lemma startWatching_all_missing_witness :
  startWatching_all (declaring [absent; missing] (machine 5 []))
  = (Return true,
     mkState (d (declaring [absent; missing] (machine 5 []))) (machine 5 [])
       ["Warning: directory /tmp/absent does not exist, skipping";
        "Warning: directory /tmp/missing does not exist, skipping"]%string
       []).
Proof.
  rewrite (startWatching_all_missing
             (declaring [absent; missing] (machine 5 []))).
  - reflexivity.
  - repeat (constructor; [reflexivity|]). constructor.
Defined.

Lemma stopWatching_all_idempotent_witness :
  stopWatching_all (exec stopWatching_all (watching []))
  = (Return true, exec stopWatching_all (watching [])).
Proof.
  apply (stopWatching_all_idempotent (watching [])).
  vm_compute. reflexivity.
Defined.


Lemma readEvents_resolves_every_record_witness :
  ∃ s', readEvents (watching [successful_read mixed_records]) = (Return tt, s')
        ∧ emitted s'
          = [fileRemoved "/home/user/x"; fileChanged "/tmp/w/a.txt";
             fileChanged "/home/user/q"]
        ∧ watchFdMap (d s') !! 7 = Some QDir_default
        ∧ watchFdMap (d s') !! (-1) = Some QDir_default
        ∧ watchFdMap (d s') !! 1 = Some tmp_w.
Proof.
  eexists. split.
  - apply (readEvents_resolves_every_record
             (watching [successful_read mixed_records]) mixed_records 0
             (os (watching []))).
    + vm_compute. reflexivity.
    + discriminate.
    + repeat (constructor; [vm_compute; reflexivity|]). constructor.
  - repeat split; vm_compute; reflexivity.
Defined.

Lemma construction_fails_without_inotify_witness :
  @FileSystemWatcher_new unit Exhausted.exhausted_OS [tmp_w] tt
  = Throw (mkError "Too many open files").
Proof.
  apply (@construction_fails_without_inotify unit Exhausted.exhausted_OS
           Exhausted.exhausted_Mkdir [tmp_w] tmp_w tt tt (-1)
           Exhausted.EMFILE).
  - reflexivity.
  - lia.
Defined.

Lemma constructed_watcher_is_idle_witness :
  FileSystemWatcher_stopWatching (declaring [tmp_w] (machine 5 []))
  = (Return true, declaring [tmp_w] (machine 5 [])).
Proof.
  apply (constructed_watcher_is_idle [tmp_w] (machine 5 [])
           (declaring [tmp_w] (machine 5 []))).
  reflexivity.
Defined.

Lemma construction_for_directory_witness :
  ∃ s, FileSystemWatcher_new_directory absent (machine 5 []) = Return s
       ∧ watchedDirectories (d s) = [absent]
       ∧ QDir_exists absent (os s) = true.
Proof.
  eexists. split.
  - apply (construction_for_directory absent (machine 5 []) (machine 5 []) 3 0).
    + reflexivity.
    + lia.
  - split; reflexivity.
Defined.
